(** * communiT: profile editing forms (edit-profile.tsx)

    A shallow embedding of the validation schemas and of the component state
    of the two [EditProfile] components of [src/pages/profile/edit-profile.tsx]:
    the multi-card view ([Cards]) and the combined single-form view
    ([Combined]).

    JavaScript strings are sequences of UTF-16 code units; the regular
    expressions of the schemas are kept as patterns and run by a backtracking
    matcher that follows the ECMAScript continuation semantics; the zod
    schemas are run by a model of the parser of zod 3 (issues are
    accumulated, a failed check makes the result dirty, a wrong type aborts). *)

From Stdlib Require Import String Ascii NArith Lia.
From stdpp Require Import base list gmap sets.

Local Open Scope N_scope.
Local Open Scope nat_scope.

(** ** JavaScript strings *)

Module JS.

(** A string is its list of UTF-16 code units. *)
Definition jsstring := list N.

(** Code units of one code point (a surrogate pair above the BMP). *)
Definition units_of_code_point (cp : N) : jsstring :=
  if (cp <? 65536)%N then [cp]
  else [(55296 + (cp - 65536) / 1024)%N; (56320 + (cp - 65536) mod 1024)%N].

(** The source file is UTF-8; [utf16_from] decodes the bytes of a literal
    into the code units the JavaScript engine sees. [pending] counts the
    continuation bytes still expected, [acc] holds the bits read so far. *)
Fixpoint utf16_from (pending : nat) (acc : N) (s : string) : jsstring :=
  match s with
  | EmptyString => []
  | String a rest =>
      let b := N_of_ascii a in
      if (b <? 128)%N then b :: utf16_from 0 0%N rest
      else if (b <? 192)%N then
        let acc' := (acc * 64 + (b - 128))%N in
        match pending with
        | 0 => utf16_from 0 0%N rest
        | 1 => units_of_code_point acc' ++ utf16_from 0 0%N rest
        | S p => utf16_from p acc' rest
        end
      else if (b <? 224)%N then utf16_from 1 (b - 192)%N rest
      else if (b <? 240)%N then utf16_from 2 (b - 224)%N rest
      else utf16_from 3 (b - 240)%N rest
  end.

Definition utf16 (s : string) : jsstring := utf16_from 0 0%N s.

(** ECMAScript LineTerminator: LF, CR, LS, PS. *)
Definition isLineTerminator (c : N) : bool :=
  (c =? 10)%N || (c =? 13)%N || (c =? 8232)%N || (c =? 8233)%N.

(** ECMAScript WhiteSpace: TAB, VT, FF, ZWNBSP and the space separators. *)
Definition isWhiteSpace (c : N) : bool :=
  (c =? 9)%N || (c =? 11)%N || (c =? 12)%N || (c =? 32)%N || (c =? 160)%N
  || (c =? 5760)%N || ((8192 <=? c)%N && (c <=? 8202)%N)
  || (c =? 8239)%N || (c =? 8287)%N || (c =? 12288)%N || (c =? 65279)%N.

Definition isTrimmed (c : N) : bool := isWhiteSpace c || isLineTerminator c.

Fixpoint trimStart (s : jsstring) : jsstring :=
  match s with
  | c :: t => if isTrimmed c then trimStart t else s
  | [] => []
  end.

Definition trimEnd (s : jsstring) : jsstring := reverse (trimStart (reverse s)).

(** [String.prototype.trim]. *)
Definition trim (s : jsstring) : jsstring := trimEnd (trimStart s).

(** Values a form field or a state cell can hold at run time. *)
Inductive value :=
| VUndefined
| VNull
| VString (s : jsstring).

Global Instance value_eq_dec : EqDecision value.
Proof. solve_decision. Defined.

(** [a === b]. *)
Definition strict_eq (a b : value) : bool := bool_decide (a = b).

(** [ToBoolean] on these values: the empty string, null and undefined are falsy. *)
Definition truthy (v : value) : bool :=
  match v with
  | VString (_ :: _) => true
  | _ => false
  end.

(** [a || b]. *)
Definition or_else (a b : value) : value := if truthy a then a else b.

End JS.

Export JS.

Notation "'js' s" := (utf16 s) (at level 1, s at level 0, only parsing).

(** ** Regular expressions *)

Module RegExp.

(** The pattern syntax the schemas use. Capturing groups carry their index
    in the captures list (group [\1] has index 0). *)
Inductive pattern :=
| Empty
| AssertBegin                         (* ^ *)
| AssertEnd                           (* $ *)
| Dot                                 (* . *)
| Class (ranges : list (N * N))       (* [a-zA-Z0-9...] *)
| Group (n : nat) (p : pattern)       (* ( p ) *)
| Backref (n : nat)                   (* \n *)
| Star (p : pattern)                  (* p* greedy *)
| Seq (p q : pattern)                 (* p q *)
| NegLookahead (p : pattern).         (* (?! p ) *)

Record MatchState := mkState {
  endIndex : nat;
  captures : list (option (nat * nat))
}.

(** [exhausted] is the model's own: the iteration bound of [RepeatMatcher]
    was reached. [compile_not_exhausted] shows it never is. *)
Inductive MatchResult :=
| failure
| exhausted
| matched (x : MatchState).

Definition Continuation := MatchState -> MatchResult.
Definition Matcher := MatchState -> Continuation -> MatchResult.

Fixpoint count_groups (p : pattern) : nat :=
  match p with
  | Group _ q => S (count_groups q)
  | Star q | NegLookahead q => count_groups q
  | Seq q r => count_groups q + count_groups r
  | _ => 0
  end.

Fixpoint groups (p : pattern) : list nat :=
  match p with
  | Group n q => n :: groups q
  | Star q | NegLookahead q => groups q
  | Seq q r => groups q ++ groups r
  | _ => []
  end.

Definition in_ranges (ranges : list (N * N)) (c : N) : bool :=
  existsb (fun r => (fst r <=? c)%N && (c <=? snd r)%N) ranges.

Section Matching.
Variable Input : jsstring.

Definition CharacterSetMatcher (A : N -> bool) : Matcher := fun x c =>
  match Input !! endIndex x with
  | None => failure
  | Some ch =>
      if A ch then c (mkState (S (endIndex x)) (captures x)) else failure
  end.

Definition BackreferenceMatcher (n : nat) : Matcher := fun x c =>
  match captures x !! n with
  | Some (Some (s, e')) =>
      let e := endIndex x in
      let len := e' - s in
      let f := e + len in
      if length Input <? f then failure
      else if forallb (fun i => bool_decide (Input !! (s + i) = Input !! (e + i)))
                      (seq 0 len)
           then c (mkState f (captures x))
           else failure
  | _ => c x
  end.

Definition clear_captures (parens : list nat) (x : MatchState) : MatchState :=
  mkState (endIndex x) (foldr (fun n cap => <[n := None]> cap) (captures x) parens).

(** [RepeatMatcher] for [*]: min 0, no max, greedy. An iteration that
    does not advance fails, so [S (length Input)] rounds suffice. *)
Fixpoint RepeatMatcher (m : Matcher) (parens : list nat) (rounds : nat)
    (x : MatchState) (c : Continuation) : MatchResult :=
  match rounds with
  | 0 => exhausted
  | S r =>
      let d := fun y =>
        if endIndex y =? endIndex x then failure
        else RepeatMatcher m parens r y c in
      match m (clear_captures parens x) d with
      | failure => c x
      | z => z
      end
  end.

Fixpoint compile (p : pattern) : Matcher :=
  match p with
  | Empty => fun x c => c x
  | AssertBegin => fun x c => if endIndex x =? 0 then c x else failure
  | AssertEnd => fun x c => if endIndex x =? length Input then c x else failure
  | Dot => CharacterSetMatcher (fun ch => negb (isLineTerminator ch))
  | Class ranges => CharacterSetMatcher (in_ranges ranges)
  | Group n q => fun x c =>
      compile q x (fun y =>
        c (mkState (endIndex y) (<[n := Some (endIndex x, endIndex y)]> (captures y))))
  | Backref n => BackreferenceMatcher n
  | Star q => fun x c =>
      RepeatMatcher (compile q) (groups q) (S (length Input)) x c
  | Seq q r => fun x c => compile q x (fun y => compile r y c)
  | NegLookahead q => fun x c =>
      match compile q x matched with
      | failure => c x
      | exhausted => exhausted
      | matched _ => failure
      end
  end.

(** [RegExpBuiltinExec] without the global and sticky flags: the match is
    tried at every start index from 0 up to the length of the input. *)
Fixpoint exec_from (p : pattern) (tries lastIndex : nat) : MatchResult :=
  match tries with
  | 0 => failure
  | S t =>
      match compile p (mkState lastIndex (replicate (count_groups p) None)) matched with
      | failure => exec_from p t (S lastIndex)
      | z => z
      end
  end.

Definition exec (p : pattern) : MatchResult := exec_from p (S (length Input)) 0.

End Matching.

(** [RegExp.prototype.test]. *)
Definition test (p : pattern) (s : jsstring) : bool :=
  match exec s p with
  | matched _ => true
  | _ => false
  end.

End RegExp.

Import RegExp.

(** ** zod: string schemas, object schemas and refinements *)

Module Zod.

Inductive ZodIssueCode := invalid_type | too_small | invalid_string | custom.

Record ZodIssue := mkIssue {
  code : ZodIssueCode;
  path : list jsstring;
  message : jsstring
}.

(** The entries of [_def.checks] of a [ZodString]. [nonempty(m)] is [min(1, m)]. *)
Inductive ZodStringCheck :=
| check_trim
| check_min (value : nat) (message : jsstring)
| check_regex (regex : pattern) (message : jsstring).

Definition ZodString := list ZodStringCheck.

(** The schema builders: each call appends its check. *)
Definition z_string : ZodString := [].
Definition z_trim (z : ZodString) : ZodString := z ++ [check_trim].
Definition z_min (n : nat) (m : jsstring) (z : ZodString) : ZodString :=
  z ++ [check_min n m].
Definition z_nonempty (m : jsstring) (z : ZodString) : ZodString := z_min 1 m z.
Definition z_regex (r : pattern) (m : jsstring) (z : ZodString) : ZodString :=
  z ++ [check_regex r m].

(** The status of a parse that was not aborted. *)
Inductive ParseStatus := valid | dirty.

Definition merge_status (a b : ParseStatus) : ParseStatus :=
  match a, b with
  | valid, valid => valid
  | _, _ => dirty
  end.

(** Adding an issue makes the status dirty. *)
Definition status_of (issues : list ZodIssue) : ParseStatus :=
  match issues with
  | [] => valid
  | _ => dirty
  end.

(** [INVALID] is [{ status: "aborted" }], [Parsed st v] is [{ status: st, value: v }]. *)
Inductive SyncParseReturnType (A : Type) :=
| INVALID
| Parsed (status : ParseStatus) (value : A).
Arguments INVALID {A}.
Arguments Parsed {A} status value.

(** A parser returns its result and the issues it added to the context. *)
Definition ParseReturn (A : Type) : Type := SyncParseReturnType A * list ZodIssue.

(** The loop over the checks of [ZodString._parse]: [trim] replaces the
    data, a failed [min] or [regex] adds an issue and the loop goes on. *)
Fixpoint run_checks (checks : list ZodStringCheck) (pth : list jsstring)
    (data : jsstring) : jsstring * list ZodIssue :=
  match checks with
  | [] => (data, [])
  | check_trim :: rest => run_checks rest pth (trim data)
  | check_min n m :: rest =>
      let r := run_checks rest pth data in
      if length data <? n then (fst r, mkIssue too_small pth m :: snd r) else r
  | check_regex re m :: rest =>
      let r := run_checks rest pth data in
      if RegExp.test re data then r else (fst r, mkIssue invalid_string pth m :: snd r)
  end.

(** The default error map's message for a value that is not a string. *)
Definition invalid_type_message (v : value) : jsstring :=
  match v with
  | VUndefined => js "Required"
  | _ => js "Expected string, received null"
  end.

Definition ZodString_parse (z : ZodString) (pth : list jsstring) (input : value)
    : ParseReturn value :=
  match input with
  | VString s =>
      let r := run_checks z pth s in
      (Parsed (status_of (snd r)) (VString (fst r)), snd r)
  | v => (INVALID, [mkIssue invalid_type pth (invalid_type_message v)])
  end.

(** A JavaScript object with string-valued properties, in property order. *)
Definition obj := list (jsstring * value).

Fixpoint get (o : obj) (k : jsstring) : value :=
  match o with
  | [] => VUndefined
  | (k', v) :: rest => if bool_decide (k' = k) then v else get rest k
  end.

Definition ZodObject := list (jsstring * ZodString).

(** [ParseStatus.mergeObjectSync]: an aborted field aborts the object, a
    dirty field makes it dirty; undefined values are not set. *)
Fixpoint mergeObjectSync (pairs : list (jsstring * SyncParseReturnType value))
    : SyncParseReturnType obj :=
  match pairs with
  | [] => Parsed valid []
  | (k, r) :: rest =>
      match r, mergeObjectSync rest with
      | INVALID, _ | _, INVALID => INVALID
      | Parsed st v, Parsed st' o =>
          Parsed (merge_status st st')
                 (if bool_decide (v = VUndefined) then o else (k, v) :: o)
      end
  end.

(** [ZodObject._parse] on an object: every key of the shape is parsed, in
    shape order, also after a field has failed. *)
Definition ZodObject_parse (shape : ZodObject) (pth : list jsstring) (data : obj)
    : ParseReturn obj :=
  let results :=
    map (fun ks => (fst ks, ZodString_parse (snd ks) (pth ++ [fst ks]) (get data (fst ks))))
        shape in
  (mergeObjectSync (map (fun kr => (fst kr, fst (snd kr))) results),
   concat (map (fun kr => snd (snd kr)) results)).

(** [schema.refine(check, { message, path })]: a [ZodEffects] refinement. *)
Record ZodEffects := mkRefine {
  schema : ZodObject;
  check : obj -> bool;
  refine_message : jsstring;
  refine_path : list jsstring
}.

(** The issue a failed refinement adds. *)
Definition executeRefinement (e : ZodEffects) (pth : list jsstring) (v : obj)
    : list ZodIssue :=
  if check e v then [] else [mkIssue custom (pth ++ refine_path e) (refine_message e)].

(** [ZodEffects._parse] for a refinement: an aborted inner result returns
    at once, otherwise the check runs on the inner value. *)
Definition ZodEffects_parse (e : ZodEffects) (pth : list jsstring) (data : obj)
    : ParseReturn obj :=
  let inner := ZodObject_parse (schema e) pth data in
  match fst inner with
  | INVALID => (INVALID, snd inner)
  | Parsed st v =>
      let issues := executeRefinement e pth v in
      (Parsed (merge_status st (status_of issues)) v, snd inner ++ issues)
  end.

(** [safeParse]: success only for status "valid". *)
Definition safeParse {A} (r : ParseReturn A) : A + list ZodIssue :=
  match fst r with
  | Parsed valid v => inl v
  | _ => inr (snd r)
  end.

End Zod.

(** ** react-hook-form with the zod resolver *)

Module HookForm.
Import Zod.

(** [formState.errors]: message by field name. *)
Definition FieldErrors := list (jsstring * jsstring).

Fixpoint error_of (errors : FieldErrors) (name : jsstring) : option jsstring :=
  match errors with
  | [] => None
  | (k, m) :: rest => if bool_decide (k = name) then Some m else error_of rest name
  end.

(** [path.join('.')]. *)
Fixpoint join (pth : list jsstring) : jsstring :=
  match pth with
  | [] => []
  | [k] => k
  | k :: rest => k ++ js "." ++ join rest
  end.

(** [parseErrorSchema]: the first issue of a path gives the field's error. *)
Fixpoint parseErrorSchema (issues : list ZodIssue) (errors : FieldErrors) : FieldErrors :=
  match issues with
  | [] => errors
  | i :: rest =>
      let k := join (path i) in
      match error_of errors k with
      | None => parseErrorSchema rest (errors ++ [(k, message i)])
      | Some _ => parseErrorSchema rest errors
      end
  end.

(** The message of the first issue whose path is the field's. *)
Fixpoint first_message (issues : list ZodIssue) (name : jsstring) : option jsstring :=
  match issues with
  | [] => None
  | i :: rest =>
      if bool_decide (join (path i) = name) then Some (message i)
      else first_message rest name
  end.

(** [zodResolver(schema)]: the parsed values, or the field errors. *)
Definition zodResolver {A} (parse : obj -> ParseReturn A) (values : obj)
    : A + FieldErrors :=
  match safeParse (parse values) with
  | inl v => inl v
  | inr issues => inr (parseErrorSchema issues [])
  end.

(** The message shown under a field after a submit: none when the
    resolver returned values. *)
Definition shown {A} (r : A + FieldErrors) (name : jsstring) : option jsstring :=
  match r with
  | inl _ => None
  | inr errs => error_of errs name
  end.

Definition accepted {A} (r : A + FieldErrors) : bool :=
  match r with
  | inl _ => true
  | inr _ => false
  end.

(** The part of [useForm]'s state the components read. *)
Record UseForm := mkForm {
  fieldValues : obj;
  errors : FieldErrors
}.

(** [useForm({ resolver })] without default values. *)
Definition useForm : UseForm := mkForm [] [].

(** [o[k] = v]. *)
Fixpoint set (o : obj) (k : jsstring) (v : value) : obj :=
  match o with
  | [] => [(k, v)]
  | (k', v') :: rest =>
      if bool_decide (k' = k) then (k, v) :: rest else (k', v') :: set rest k v
  end.

(** A change event of a registered input before the first submit: with the
    default modes no validation runs until then, the errors stay as they are. *)
Definition onChange (name : jsstring) (s : jsstring) (f : UseForm) : UseForm :=
  mkForm (set (fieldValues f) name (VString s)) (errors f).

(** [watch(name, defaultValue)]. *)
Definition watch (f : UseForm) (name : jsstring) (defaultValue : value) : value :=
  match get (fieldValues f) name with
  | VUndefined => defaultValue
  | v => v
  end.

(** [reset()] with no argument: back to the (absent) default values, errors cleared. *)
Definition reset (f : UseForm) : UseForm := mkForm [] [].

(** The values a submit reads: every registered input is a text input, so a
    field never typed into holds the empty string. *)
Definition submitted (names : list jsstring) (f : UseForm) : obj :=
  map (fun k => (k, watch f k (VString []))) names.

End HookForm.

(** Method chaining: [z .> f] is [z.f(...)]. *)
Notation "z .> f" := (f z) (at level 45, left associativity, only parsing).

(** ** What both components share: effects, files, icons *)

Module UI.

(** The calls a handler makes to its collaborators. *)
Inductive effect :=
| toast (title description : jsstring)
| console_log (label : jsstring) (payload : Zod.obj)
| console_log_list (label : jsstring) (payload : list jsstring).

(** A file of the file picker: all the handlers use of it is what
    [FileReader.readAsDataURL] leaves in [reader.result] at loadend, the
    data URL or null when the read failed. *)
Record File := mkFile { readAsDataURL : value }.

Definition defaultImage : jsstring := js "https://example.com/my-default-image.png".

Definition range (lo hi : string) : N * N := (hd 0%N (js lo), hd 0%N (js hi)).

(** [/^[a-zA-Z0-9가-힣]*$/] *)
Definition nickname_re : pattern :=
  Seq AssertBegin
    (Seq (Star (Class [range "a" "z"; range "A" "Z"; range "0" "9"; range "가" "힣"]))
         AssertEnd).

(** [/^(?!.*(.)\1\1).*$/] *)
Definition repeat_re : pattern :=
  Seq AssertBegin
    (Seq (NegLookahead (Seq (Star Dot) (Seq (Group 0 Dot) (Seq (Backref 0) (Backref 0)))))
         (Seq (Star Dot) AssertEnd)).

Definition msg_name_required : jsstring := js "이름을 입력해 주세요.".
Definition msg_name_pattern : jsstring :=
  js "공백, 특수 문자, 그리고 자음이나 모음만으로 이루어진 한글은 사용할 수 없습니다.".
Definition msg_name_min : jsstring := js "이름은 최소 2자 이상이어야 합니다.".
Definition msg_password_min : jsstring := js "비밀번호는 최소 8자 이상이어야 합니다.".
Definition msg_password_repeat : jsstring := js "같은 문자를 3번 이상 반복할 수 없습니다.".
Definition msg_password_mismatch : jsstring := js "비밀번호가 일치하지 않습니다.".

End UI.

Import UI.

(** ** The multi-card edit view (first [EditProfile]) *)

Module Cards.
Import HookForm.

Definition nicknameSchema : Zod.ZodObject :=
  [ (js "nickname",
     Zod.z_string
       .> Zod.z_trim
       .> Zod.z_nonempty msg_name_required
       .> Zod.z_regex nickname_re msg_name_pattern
       .> Zod.z_min 2 msg_name_min) ].

Definition passwordSchema : Zod.ZodEffects :=
  Zod.mkRefine
    [ (js "currentPassword", Zod.z_string .> Zod.z_min 8 msg_password_min);
      (js "newPassword",
       Zod.z_string
         .> Zod.z_min 8 msg_password_min
         .> Zod.z_regex repeat_re msg_password_repeat);
      (js "confirmPassword", Zod.z_string) ]
    (fun data => strict_eq (Zod.get data (js "newPassword"))
                           (Zod.get data (js "confirmPassword")))
    msg_password_mismatch
    [js "confirmPassword"].

Definition categoryOptions : list jsstring :=
  [js "축구"; js "농구"; js "야구"; js "테니스"; js "스쿠버 다이빙"; js "수상스키"; js "런닝"].

Record State := mkState {
  profileImage : value;
  categories : list jsstring;
  nicknameForm : UseForm;
  passwordForm : UseForm;
  readers : list File          (* FileReaders whose loadend is still to come *)
}.

(** The state of the first render. *)
Definition initial : State := mkState (VString []) [] useForm useForm [].

(** [files?.[0]] is [head files]; with a file, a reader is started. *)
Definition handleImageChange (files : list File) (st : State) : State :=
  match head files with
  | Some file =>
      mkState (profileImage st) (categories st) (nicknameForm st) (passwordForm st)
              (readers st ++ [file])
  | None => st
  end.

(** [reader.onloadend] of the [i]-th pending reader. *)
Definition onloadend (i : nat) (st : State) : State :=
  match readers st !! i with
  | Some file =>
      mkState (readAsDataURL file) (categories st) (nicknameForm st) (passwordForm st)
              (delete i (readers st))
  | None => st
  end.

(** [src={profileImage || defaultImage}] *)
Definition avatarSrc (st : State) : value :=
  or_else (profileImage st) (VString defaultImage).

Definition handleImageSubmit (st : State) : list effect :=
  [toast (js "프로필 이미지 업데이트") (js "프로필 이미지가 성공적으로 업데이트되었습니다.")].

(** The updater passed to [setCategories]. *)
Definition toggle (category : jsstring) (prevCategories : list jsstring) : list jsstring :=
  if bool_decide (category ∈ prevCategories)
  then filter (λ c, c ≠ category) prevCategories
  else prevCategories ++ [category].

Definition setCategories (update : list jsstring → list jsstring) (st : State) : State :=
  mkState (profileImage st) (update (categories st)) (nicknameForm st)
          (passwordForm st) (readers st).

Definition toggleCategory (category : jsstring) (st : State) : State :=
  setCategories (toggle category) st.

Definition handleCategorySubmit (st : State) : list effect :=
  [console_log_list (js "선택된 카테고리:") (categories st);
   toast (js "카테고리 업데이트") (js "카테고리가 성공적으로 업데이트되었습니다.")].

Definition onSubmitNickname (data : Zod.obj) : list effect :=
  [console_log (js "닉네임 업데이트:") data;
   toast (js "닉네임 업데이트") (js "닉네임이 성공적으로 업데이트되었습니다.")].

Definition onSubmitPassword (data : Zod.obj) : list effect :=
  [console_log (js "비밀번호 업데이트:") data;
   toast (js "비밀번호 업데이트") (js "비밀번호가 성공적으로 업데이트되었습니다.")].

Definition nicknameResolver (values : Zod.obj) : Zod.obj + FieldErrors :=
  zodResolver (Zod.ZodObject_parse nicknameSchema []) values.

Definition passwordResolver (values : Zod.obj) : Zod.obj + FieldErrors :=
  zodResolver (Zod.ZodEffects_parse passwordSchema []) values.

(** Typing into a registered input of one of the two forms. *)
Definition typeNickname (s : jsstring) (st : State) : State :=
  mkState (profileImage st) (categories st) (onChange (js "nickname") s (nicknameForm st))
          (passwordForm st) (readers st).

Definition typePassword (name s : jsstring) (st : State) : State :=
  mkState (profileImage st) (categories st) (nicknameForm st)
          (onChange name s (passwordForm st)) (readers st).

(** The values of the two forms with every field typed. *)
Definition nicknameValues (nickname : jsstring) : Zod.obj :=
  [(js "nickname", VString nickname)].

Definition passwordValues (currentPassword newPassword confirmPassword : jsstring)
    : Zod.obj :=
  [(js "currentPassword", VString currentPassword);
   (js "newPassword", VString newPassword);
   (js "confirmPassword", VString confirmPassword)].

(** [handleSubmitNickname(onSubmitNickname)] *)
Definition submitNickname (st : State) : State * list effect :=
  let f := nicknameForm st in
  match nicknameResolver (submitted [js "nickname"] f) with
  | inl data =>
      (mkState (profileImage st) (categories st) (mkForm (fieldValues f) [])
               (passwordForm st) (readers st),
       onSubmitNickname data)
  | inr errs =>
      (mkState (profileImage st) (categories st) (mkForm (fieldValues f) errs)
               (passwordForm st) (readers st),
       [])
  end.

(** [handleSubmitPassword(onSubmitPassword)] *)
Definition submitPassword (st : State) : State * list effect :=
  let f := passwordForm st in
  match passwordResolver
          (submitted [js "currentPassword"; js "newPassword"; js "confirmPassword"] f) with
  | inl data =>
      (mkState (profileImage st) (categories st) (nicknameForm st)
               (mkForm (fieldValues f) []) (readers st),
       onSubmitPassword data)
  | inr errs =>
      (mkState (profileImage st) (categories st) (nicknameForm st)
               (mkForm (fieldValues f) errs) (readers st),
       [])
  end.

End Cards.

(** ** The combined single-form edit view (second [EditProfile]) *)

Module Combined.
Import HookForm.

Definition formSchema : Zod.ZodEffects :=
  Zod.mkRefine
    [ (js "userNickname",
       Zod.z_string
         .> Zod.z_trim
         .> Zod.z_nonempty msg_name_required
         .> Zod.z_regex nickname_re msg_name_pattern
         .> Zod.z_min 2 msg_name_min);
      (js "password", Zod.z_string .> Zod.z_min 8 msg_password_min);
      (js "newPassword",
       Zod.z_string
         .> Zod.z_min 8 msg_password_min
         .> Zod.z_regex repeat_re msg_password_repeat);
      (js "confirmPassword", Zod.z_string) ]
    (fun data => strict_eq (Zod.get data (js "newPassword"))
                           (Zod.get data (js "confirmPassword")))
    msg_password_mismatch
    [js "confirmPassword"].

Definition categoryOptions : list jsstring :=
  [js "축구"; js "농구"; js "야구"; js "테니스"; js "스쿠버다이빙"; js "수상스키"; js "런닝"].

Record State := mkState {
  profileImage : value;
  categories : list jsstring;
  form : UseForm;
  imageFileRef : option jsstring;   (* the file input's value, when mounted *)
  readers : list File;
  location : jsstring               (* the router's current path *)
}.

(** The state of the first render, reached from the profile view's link. *)
Definition initial : State :=
  mkState (VString []) [] useForm (Some []) [] (js "/edit-profile").

Definition handleImageChange (files : list File) (st : State) : State :=
  match head files with
  | Some file =>
      mkState (profileImage st) (categories st) (form st) (imageFileRef st)
              (readers st ++ [file]) (location st)
  | None => st
  end.

Definition onloadend (i : nat) (st : State) : State :=
  match readers st !! i with
  | Some file =>
      mkState (readAsDataURL file) (categories st) (form st) (imageFileRef st)
              (delete i (readers st)) (location st)
  | None => st
  end.

Definition avatarSrc (st : State) : value :=
  or_else (profileImage st) (VString defaultImage).

Definition toggle (category : jsstring) (prevCategories : list jsstring) : list jsstring :=
  if bool_decide (category ∈ prevCategories)
  then filter (λ c, c ≠ category) prevCategories
  else prevCategories ++ [category].

Definition setCategories (update : list jsstring → list jsstring) (st : State) : State :=
  mkState (profileImage st) (update (categories st)) (form st)
          (imageFileRef st) (readers st) (location st).

Definition toggleCategory (category : jsstring) (st : State) : State :=
  setCategories (toggle category) st.

Definition onSubmit (st : State) (data : Zod.obj) : list effect :=
  [console_log (js "프로필 수정 성공 : ") ((js "profileImage", profileImage st) :: data);
   console_log_list (js "선택된 카테고리:") (categories st)].

Definition resolver (values : Zod.obj) : Zod.obj + FieldErrors :=
  zodResolver (Zod.ZodEffects_parse formSchema []) values.

Definition fieldNames : list jsstring :=
  [js "userNickname"; js "password"; js "newPassword"; js "confirmPassword"].

(** The values of the form with every field typed. *)
Definition formValues (userNickname password newPassword confirmPassword : jsstring)
    : Zod.obj :=
  [(js "userNickname", VString userNickname);
   (js "password", VString password);
   (js "newPassword", VString newPassword);
   (js "confirmPassword", VString confirmPassword)].

(** [handleSubmit(onSubmit)] *)
Definition submit (st : State) : State * list effect :=
  let f := form st in
  match resolver (submitted fieldNames f) with
  | inl data =>
      (mkState (profileImage st) (categories st) (mkForm (fieldValues f) [])
               (imageFileRef st) (readers st) (location st),
       onSubmit st data)
  | inr errs =>
      (mkState (profileImage st) (categories st) (mkForm (fieldValues f) errs)
               (imageFileRef st) (readers st) (location st),
       [])
  end.

(** [checked={categories.includes(category)}] of a label's checkbox. *)
Definition checked (st : State) (category : jsstring) : bool :=
  bool_decide (category ∈ categories st).

(** Modelled from the spec: [@/components/ui/checkbox] is not among the
    sources. It is taken as the stock wrapper of the Radix checkbox, which
    the props [checked] and [onCheckedChange] of the caller fit. Such a
    checkbox listens to the reset event of its form and goes back to the
    checked state of its first render, unchecked here since the selection
    starts empty; a controlled checkbox does so by calling [onCheckedChange]
    when its [checked] prop differs. So on a reset event every checkbox that
    was rendered checked calls [toggleCategory] with its label, in the order
    of [categoryOptions], and the updaters run one after the other on the
    selection. This is how "on cancel ... clears in-progress edits" reaches
    the category selection. *)
Definition checkboxesOnReset (st : State) : State :=
  foldl (λ acc category, if checked st category then toggleCategory category acc else acc)
        st categoryOptions.

(** [setProfileImage(''); reset(); navigate('/my-profile');] and the file
    input's value is emptied when the ref is set. [reset()] without argument
    also calls [reset()] on the form element of the registered inputs, and
    that reset event reaches the checkboxes of the form. The state is the one
    the component holds while it stays mounted; if the route change unmounts
    it, the state is dropped and the next visit starts from [initial]. *)
Definition handleCancel (st : State) : State :=
  mkState (VString [])
          (categories (checkboxesOnReset st))
          (reset (form st))
          (match imageFileRef st with Some _ => Some [] | None => None end)
          (readers st)
          (js "/my-profile").

(** A click on the cancel button: [handleCancel], then the reset event that
    a button of [type="reset"] fires by itself, on the state just rendered. *)
Definition clickCancel (st : State) : State := checkboxesOnReset (handleCancel st).

(** Typing into a registered input. *)
Definition typeField (name s : jsstring) (st : State) : State :=
  mkState (profileImage st) (categories st) (onChange name s (form st))
          (imageFileRef st) (readers st) (location st).

Definition typeNickname (s : jsstring) (st : State) : State :=
  typeField (js "userNickname") s st.

(** What is drawn at the right of the nickname input. *)
Inductive icon := XCircle | CheckCircle | no_icon | throws_TypeError.

Definition userNicknameValue (st : State) : value :=
  watch (form st) (js "userNickname") (VString []).

Definition nicknameIcon (st : State) : icon :=
  match error_of (errors (form st)) (js "userNickname") with
  | Some _ => XCircle
  | None =>
      match userNicknameValue st with
      | VString s => if 2 <=? length (trim s) then CheckCircle else no_icon
      | _ => throws_TypeError
      end
  end.

(** [className] of the nickname input. *)
Definition nicknameInputClass (st : State) : jsstring :=
  js "pl-10 pr-10 "
  ++ match error_of (errors (form st)) (js "userNickname") with
     | Some _ => js "border-red-500"
     | None => []
     end.

(** What the user can do before pressing save: type into a field, click a
    label, pick files, let a pending read end, press cancel. *)
Inductive event :=
| Typed (name s : jsstring)
| Toggled (category : jsstring)
| Picked (files : list File)
| LoadEnded (i : nat)
| Cancelled.

Definition handle (st : State) (e : event) : State :=
  match e with
  | Typed name s => typeField name s st
  | Toggled category => toggleCategory category st
  | Picked files => handleImageChange files st
  | LoadEnded i => onloadend i st
  | Cancelled => handleCancel st
  end.

Definition run (events : list event) : State := foldl handle initial events.

End Combined.

(** ** The password recovery card ([FindPassword]) *)

Module FindPassword.

(** [email] follows the input; [errors] has no setter in use. *)
Record State := mkState {
  email : jsstring;
  errors : Zod.obj
}.

Definition initial : State := mkState [] [].

(** [onChange={e => setEmail(e.target.value)}] *)
Definition onChange (value : jsstring) (st : State) : State :=
  mkState value (errors st).

(** [className] of the email input. *)
Definition inputClass (st : State) : jsstring :=
  js "pl-10 pr-10 "
  ++ (if truthy (Zod.get (errors st) (js "email")) then js "border-red-500" else []).

(** [{errors.email && <p>...</p>}]: the text under the input, if any. *)
Definition errorText (st : State) : option value :=
  if truthy (Zod.get (errors st) (js "email")) then Some (Zod.get (errors st) (js "email"))
  else None.

End FindPassword.

(** ** The rules in words *)

Module Rules.

(** The units the nickname pattern's class admits. *)
Definition nickname_unit : N → bool :=
  in_ranges [range "a" "z"; range "A" "Z"; range "0" "9"; range "가" "힣"].

(** Some unit occurs three times in a row, at index [i]. *)
Definition repeats_at (p : jsstring) (i : nat) : Prop :=
  ∃ c, p !! i = Some c ∧ p !! (i + 1) = Some c ∧ p !! (i + 2) = Some c.

(** The nickname rule of the specification, on the raw input. *)
Definition nickname_rule (s : jsstring) : Prop :=
  trim s ≠ [] ∧ RegExp.test nickname_re (trim s) = true ∧ 2 ≤ length (trim s).

(** No unit occurs three or more times consecutively. *)
Definition NoTripleRepeat (p : jsstring) : Prop := ∀ i, ¬ repeats_at p i.

(** The units [.] matches. *)
Definition dot_unit (c : N) : bool := negb (isLineTerminator c).

Definition triple_head (s : jsstring) : bool :=
  match s with
  | a :: b :: c :: _ => (a =? b)%N && (a =? c)%N
  | _ => false
  end.

Fixpoint has_triple (s : jsstring) : bool :=
  match s with
  | [] => false
  | _ :: t => triple_head s || has_triple t
  end.

(** What the lookahead [.*(.)\1\1] can reach: a triple of a unit that is
    no line terminator, behind units that are no line terminators. *)
Fixpoint dot_triple (s : jsstring) : bool :=
  match s with
  | [] => false
  | a :: t => dot_unit a && (dot_triple t || triple_head s)
  end.

(** The data a string schema hands on: only [trim] changes it. *)
Fixpoint data_after (z : Zod.ZodString) (s : jsstring) : jsstring :=
  match z with
  | [] => s
  | Zod.check_trim :: rest => data_after rest (trim s)
  | _ :: rest => data_after rest s
  end.

(** The issue of the refinement of the password schemas. *)
Definition mismatch_issue (new conf : jsstring) : list Zod.ZodIssue :=
  if strict_eq (VString new) (VString conf) then []
  else [Zod.mkIssue Zod.custom [js "confirmPassword"] msg_password_mismatch].

(** The string a field hands to a submit. *)
Definition text (f : HookForm.UseForm) (name : jsstring) : jsstring :=
  match HookForm.watch f name (VString []) with
  | VString s => s
  | _ => []
  end.

(** Every field that holds something holds a string. *)
Definition strings_only (f : HookForm.UseForm) : Prop :=
  ∀ k, Zod.get (HookForm.fieldValues f) k = VUndefined
       ∨ ∃ s, Zod.get (HookForm.fieldValues f) k = VString s.

(** The message under the nickname field, from the trimmed input: the
    order of the checks gives the priority. *)
Definition nickname_message (t : jsstring) : option jsstring :=
  if bool_decide (t = []) then Some msg_name_required
  else if forallb nickname_unit t
       then if length t =? 1 then Some msg_name_min else None
       else Some msg_name_pattern.

(** The rules a submit of the password card checks, and of the combined form. *)
Definition password_rules (cur new conf : jsstring) : Prop :=
  8 ≤ length cur ∧ 8 ≤ length new ∧ RegExp.test repeat_re new = true ∧ new = conf.

Definition form_rules (nick pw new conf : jsstring) : Prop :=
  nickname_rule nick ∧ password_rules pw new conf.

(** All units are white space or line terminators. *)
Definition blank (s : jsstring) : Prop := Forall (λ c, isTrimmed c = true) s.

End Rules.

Import Rules.

(** * Properties *)

(** ** The matcher always answers *)

Section MatcherTotal.
Variable Input : jsstring.

(** A continuation that answers on every state from [i] on. *)
Definition answers_from (i : nat) (c : Continuation) : Prop :=
  ∀ y, i ≤ endIndex y ≤ length Input → c y ≠ exhausted.

Definition total_matcher (m : Matcher) : Prop :=
  ∀ x c, endIndex x ≤ length Input → answers_from (endIndex x) c → m x c ≠ exhausted.

Lemma answers_from_mono i j c : i ≤ j → answers_from i c → answers_from j c.
Proof. intros Hij Hc y Hy. apply Hc. lia. Qed.

Lemma RepeatMatcher_total m parens :
  total_matcher m →
  ∀ rounds x c,
    length Input - endIndex x < rounds → endIndex x ≤ length Input →
    answers_from (endIndex x) c →
    RepeatMatcher m parens rounds x c ≠ exhausted.
Proof.
  intros Hm rounds. induction rounds as [|r IH]; intros x c Hr Hx Hc; [lia|].
  cbn [RepeatMatcher].
  destruct (m _ _) eqn:E; [apply Hc; lia | | discriminate].
  exfalso. revert E. apply Hm; [exact Hx|].
  intros y Hy. cbn [clear_captures endIndex] in Hy.
  destruct (endIndex y =? endIndex x) eqn:Heq; [discriminate|].
  apply Nat.eqb_neq in Heq.
  apply IH; [lia | lia | eapply answers_from_mono; [|exact Hc]; lia].
Qed.

Lemma compile_not_exhausted p : total_matcher (compile Input p).
Proof.
  induction p as [| | | |ranges|n q IH|n|q IH|q IHq r IHr|q IH];
    intros x c Hx Hc; cbn [compile].
  - apply Hc. lia.
  - destruct (_ =? _); [apply Hc; lia | discriminate].
  - destruct (_ =? _); [apply Hc; lia | discriminate].
  - unfold CharacterSetMatcher. destruct (Input !! endIndex x) eqn:E; [|discriminate].
    apply lookup_lt_Some in E. destruct (negb _); [|discriminate].
    apply Hc. cbn. lia.
  - unfold CharacterSetMatcher. destruct (Input !! endIndex x) eqn:E; [|discriminate].
    apply lookup_lt_Some in E. destruct (in_ranges _ _); [|discriminate].
    apply Hc. cbn. lia.
  - apply IH; [exact Hx|]. intros y Hy. apply Hc. cbn. lia.
  - unfold BackreferenceMatcher.
    destruct (captures x !! n) as [[[s e']|]|]; try (apply Hc; lia).
    destruct (_ <? _) eqn:Hlt; [discriminate|]. apply Nat.ltb_ge in Hlt.
    destruct (forallb _ _); [|discriminate]. apply Hc. cbn. lia.
  - apply RepeatMatcher_total; [exact IH | lia | exact Hx | exact Hc].
  - apply IHq; [exact Hx|]. intros y Hy. apply IHr; [lia|].
    eapply answers_from_mono; [|exact Hc]. lia.
  - destruct (compile Input q x matched) eqn:E; [apply Hc; lia | | discriminate].
    exfalso. revert E. apply IH; [exact Hx|]. intros y _. discriminate.
Qed.

Lemma exec_from_not_exhausted p tries lastIndex :
  lastIndex + tries = S (length Input) → exec_from Input p tries lastIndex ≠ exhausted.
Proof.
  revert lastIndex. induction tries as [|t IH]; intros i Hi; cbn [exec_from]; [discriminate|].
  destruct (compile _ _ _ _) eqn:E; [apply IH; lia | | discriminate].
  exfalso. revert E. apply compile_not_exhausted; [cbn; lia|]. intros y _. discriminate.
Qed.

(** Enough rounds: [exec] never stops for lack of them. *)
Lemma exec_not_exhausted p : exec Input p ≠ exhausted.
Proof. apply exec_from_not_exhausted. lia. Qed.

(** A pattern anchored by [^] matches at index 0 or not at all. *)
Lemma exec_from_anchored q tries i :
  0 < i → exec_from Input (Seq AssertBegin q) tries i = failure.
Proof.
  revert i. induction tries as [|t IH]; intros i Hi; [reflexivity|].
  cbn [exec_from compile endIndex]. destruct (i =? 0) eqn:E.
  - apply Nat.eqb_eq in E. lia.
  - apply IH. lia.
Qed.

Lemma exec_anchored q :
  exec Input (Seq AssertBegin q)
  = compile Input q (RegExp.mkState 0 (replicate (count_groups q) None)) matched.
Proof.
  unfold exec. cbn [exec_from compile endIndex count_groups Nat.eqb].
  destruct (compile Input q _ matched) eqn:E; try reflexivity.
  apply exec_from_anchored. lia.
Qed.

Lemma clear_captures_nil x : clear_captures [] x = x.
Proof. destruct x. reflexivity. Qed.

(** One round of the star over a character set. *)
Lemma RepeatMatcher_set_step (A : N → bool) rounds i caps c :
  RepeatMatcher (CharacterSetMatcher Input A) [] (S rounds) (RegExp.mkState i caps) c
  = match Input !! i with
    | Some ch =>
        if A ch
        then match RepeatMatcher (CharacterSetMatcher Input A) [] rounds
                     (RegExp.mkState (S i) caps) c with
             | failure => c (RegExp.mkState i caps)
             | z => z
             end
        else c (RegExp.mkState i caps)
    | None => c (RegExp.mkState i caps)
    end.
Proof.
  cbn [RepeatMatcher]. rewrite clear_captures_nil.
  unfold CharacterSetMatcher at 1. cbn [endIndex captures].
  destruct (Input !! i) as [ch|]; [|reflexivity].
  destruct (A ch); [|reflexivity].
  replace (S i =? i) with false by (symmetry; apply Nat.eqb_neq; lia).
  reflexivity.
Qed.

(** [A*$]: the greedy star over a character set, followed by the end of
    input, succeeds exactly when every remaining unit is in the set. *)
Lemma star_set_end (A : N → bool) rounds i caps :
  length Input - i < rounds → i ≤ length Input →
  RepeatMatcher (CharacterSetMatcher Input A) [] rounds (RegExp.mkState i caps)
    (fun y => compile Input AssertEnd y matched)
  = if forallb A (drop i Input) then matched (RegExp.mkState (length Input) caps)
    else failure.
Proof.
  revert i. induction rounds as [|r IH]; intros i Hr Hi; [lia|].
  rewrite RepeatMatcher_set_step.
  destruct (Input !! i) as [ch|] eqn:E.
  - pose proof (lookup_lt_Some _ _ _ E) as Hlt.
    rewrite (drop_S _ _ _ E). cbn [forallb].
    assert ((i =? length Input) = false) as Hne by (apply Nat.eqb_neq; lia).
    destruct (A ch); cbn [andb].
    + rewrite IH by lia.
      destruct (forallb A (drop (S i) Input)); [reflexivity|].
      cbn [compile endIndex]. rewrite Hne. reflexivity.
    + cbn [compile endIndex]. rewrite Hne. reflexivity.
  - apply lookup_ge_None in E. assert (i = length Input) as -> by lia.
    cbn [compile endIndex]. rewrite Nat.eqb_refl, drop_all. reflexivity.
Qed.

End MatcherTotal.

(** ** The two patterns of the schemas *)

Lemma test_nickname_re s : RegExp.test nickname_re s = forallb nickname_unit s.
Proof.
  unfold RegExp.test, nickname_re. rewrite exec_anchored.
  cbn [compile groups count_groups Nat.add replicate].
  rewrite star_set_end by lia. rewrite drop_0. unfold nickname_unit.
  destruct (forallb _ s); reflexivity.
Qed.

Section RepeatPattern.
Variable Input : jsstring.

Lemma triple_head_lookup j :
  triple_head (drop j Input)
  = match Input !! j, Input !! S j, Input !! S (S j) with
    | Some a, Some b, Some c => (a =? b)%N && (a =? c)%N
    | _, _, _ => false
    end.
Proof.
  destruct (Input !! j) as [a|] eqn:Ea.
  - rewrite (drop_S _ _ _ Ea). destruct (Input !! S j) as [b|] eqn:Eb.
    + rewrite (drop_S _ _ _ Eb). destruct (Input !! S (S j)) as [c|] eqn:Ec.
      * rewrite (drop_S _ _ _ Ec). reflexivity.
      * apply lookup_ge_None in Ec. rewrite (drop_ge _ (S (S j))) by lia. reflexivity.
    + apply lookup_ge_None in Eb. rewrite (drop_ge _ (S j)) by lia. reflexivity.
  - apply lookup_ge_None in Ea. rewrite drop_ge by lia. reflexivity.
Qed.

(** [(.)\1\1] at index [j]. *)
Lemma group_backrefs j caps :
  0 < length caps →
  compile Input (Seq (Group 0 Dot) (Seq (Backref 0) (Backref 0)))
    (RegExp.mkState j caps) matched
  = match Input !! j with
    | Some a =>
        if negb (isLineTerminator a) && triple_head (drop j Input)
        then matched (RegExp.mkState (j + 3) (<[0 := Some (j, S j)]> caps))
        else failure
    | None => failure
    end.
Proof.
  intros Hcaps. rewrite triple_head_lookup.
  cbn [compile]. unfold CharacterSetMatcher at 1. cbn [endIndex captures].
  destruct (Input !! j) as [a|] eqn:Ea; [|reflexivity].
  destruct (negb (isLineTerminator a)); cbn [andb]; [|reflexivity].
  unfold BackreferenceMatcher at 1. cbn [endIndex captures].
  rewrite list_lookup_insert_eq by exact Hcaps.
  replace (S j - j) with 1 by lia. cbn [seq forallb].
  rewrite !Nat.add_0_r, Ea.
  destruct (Input !! S j) as [b|] eqn:Eb.
  2:{ apply lookup_ge_None in Eb.
      replace (length Input <? S j + 1) with true
        by (symmetry; apply Nat.ltb_lt; lia).
      reflexivity. }
  pose proof (lookup_lt_Some _ _ _ Eb) as Hb.
  replace (length Input <? S j + 1) with false
    by (symmetry; apply Nat.ltb_ge; lia).
  destruct (N.eqb_spec a b) as [->|Hab].
  2:{ rewrite bool_decide_eq_false_2 by congruence.
      destruct (Input !! S (S j)); reflexivity. }
  rewrite bool_decide_eq_true_2 by reflexivity. cbn [andb].
  unfold BackreferenceMatcher. cbn [endIndex captures].
  rewrite list_lookup_insert_eq by exact Hcaps.
  replace (S j - j) with 1 by lia. cbn [seq forallb].
  rewrite !Nat.add_0_r, Ea. replace (S j + 1) with (S (S j)) by lia.
  destruct (Input !! S (S j)) as [c|] eqn:Ec.
  2:{ apply lookup_ge_None in Ec.
      replace (length Input <? S (S j) + 1) with true
        by (symmetry; apply Nat.ltb_lt; lia).
      reflexivity. }
  pose proof (lookup_lt_Some _ _ _ Ec) as Hc.
  replace (length Input <? S (S j) + 1) with false
    by (symmetry; apply Nat.ltb_ge; lia).
  destruct (N.eqb_spec b c) as [->|Hbc].
  - rewrite bool_decide_eq_true_2 by reflexivity. cbn [andb].
    replace (S (S j) + 1) with (j + 3) by lia. reflexivity.
  - rewrite bool_decide_eq_false_2 by congruence. reflexivity.
Qed.

(** [.*(.)\1\1] from index [i]: the greedy star backtracks over every
    number of leading units. *)
Lemma star_dot_triple rounds i caps :
  0 < length caps → length Input - i < rounds → i ≤ length Input →
  let r := RepeatMatcher (CharacterSetMatcher Input (λ ch, negb (isLineTerminator ch)))
             [] rounds (RegExp.mkState i caps)
             (fun y => compile Input (Seq (Group 0 Dot) (Seq (Backref 0) (Backref 0)))
                         y matched) in
  if dot_triple (drop i Input) then ∃ y, r = matched y else r = failure.
Proof.
  intros Hcaps. revert i. induction rounds as [|n IH]; intros i Hr Hi; [lia|].
  cbn zeta. rewrite RepeatMatcher_set_step, group_backrefs by exact Hcaps.
  destruct (Input !! i) as [a|] eqn:Ea.
  - pose proof (lookup_lt_Some _ _ _ Ea) as Hlt.
    rewrite (drop_S _ _ _ Ea). cbn [dot_triple]. unfold dot_unit.
    destruct (negb (isLineTerminator a)); cbn [andb]; [|reflexivity].
    specialize (IH (S i) ltac:(lia) ltac:(lia)). cbn zeta in IH.
    destruct (dot_triple (drop (S i) Input)); cbn [orb].
    + destruct IH as [y ->]. eauto.
    + rewrite IH. destruct (triple_head _); eauto.
  - apply lookup_ge_None in Ea. rewrite drop_ge by lia. reflexivity.
Qed.

End RepeatPattern.

Lemma test_repeat_re s :
  RegExp.test repeat_re s = negb (dot_triple s) && forallb dot_unit s.
Proof.
  unfold RegExp.test, repeat_re. rewrite exec_anchored.
  cbn [compile groups count_groups Nat.add replicate].
  pose proof (star_dot_triple s (S (length s)) 0 [None]
                ltac:(cbn; lia) ltac:(lia) ltac:(lia)) as H.
  cbn zeta in H. rewrite drop_0 in H. cbn [compile] in H.
  rewrite star_set_end by lia. rewrite drop_0.
  change (forallb (λ ch, negb (isLineTerminator ch)) s) with (forallb dot_unit s).
  destruct (dot_triple s).
  - destruct H as [y ->]. reflexivity.
  - rewrite H. destruct (forallb dot_unit s); reflexivity.
Qed.

Lemma dot_triple_has_triple s : forallb dot_unit s = true → dot_triple s = has_triple s.
Proof.
  induction s as [|a t IH]; [reflexivity|].
  cbn [forallb dot_triple has_triple]. intros [Ha Ht]%andb_prop.
  rewrite Ha, (IH Ht). cbn [andb]. apply orb_comm.
Qed.

(** What the pattern of the new password decides: no line terminator and
    no unit three times in a row. *)
Lemma test_repeat_re_units s :
  RegExp.test repeat_re s = forallb dot_unit s && negb (has_triple s).
Proof.
  rewrite test_repeat_re. destruct (forallb dot_unit s) eqn:E.
  - rewrite (dot_triple_has_triple _ E). apply andb_comm.
  - apply andb_false_r.
Qed.

Lemma triple_head_spec s :
  triple_head s = true ↔ ∃ c, s !! 0 = Some c ∧ s !! 1 = Some c ∧ s !! 2 = Some c.
Proof.
  destruct s as [|a [|b [|c t]]]; cbn; split; try discriminate;
    try (intros (c0 & H0 & H1 & H2); discriminate).
  - intros [->%N.eqb_eq ->%N.eqb_eq]%andb_prop. eauto.
  - intros (c0 & [= ->] & [= ->] & [= ->]). rewrite N.eqb_refl. reflexivity.
Qed.

Lemma has_triple_spec s : has_triple s = true ↔ ∃ i, repeats_at s i.
Proof.
  induction s as [|a t IH].
  - split; [discriminate|]. intros (i & c & H & _). destruct i; discriminate.
  - cbn [has_triple]. rewrite orb_true_iff, IH, triple_head_spec. split.
    + intros [H|(i & c & H0 & H1 & H2)].
      * exists 0. exact H.
      * exists (S i), c. auto.
    + intros ([|i] & c & H0 & H1 & H2).
      * left. exists c. auto.
      * right. exists i, c. auto.
Qed.

Lemma has_triple_false s : has_triple s = false ↔ NoTripleRepeat s.
Proof.
  rewrite <- not_true_iff_false, has_triple_spec. unfold NoTripleRepeat. split.
  - intros H i Hi. apply H. eauto.
  - intros H [i Hi]. exact (H i Hi).
Qed.

(** ** Running the schemas *)

(** Unfolds a schema run down to the tests on the typed strings. *)
Ltac run_schema :=
  cbv - [trim RegExp.test length Nat.ltb Nat.leb nickname_re repeat_re strict_eq].

Lemma strict_eq_string a b : strict_eq (VString a) (VString b) = bool_decide (a = b).
Proof.
  unfold strict_eq. destruct (decide (a = b)) as [->|H].
  - rewrite !bool_decide_eq_true_2; reflexivity.
  - rewrite !bool_decide_eq_false_2; congruence.
Qed.

Lemma nickname_rule_tests s :
  nickname_rule s ↔
  (length (trim s) <? 1) = false ∧ RegExp.test nickname_re (trim s) = true
  ∧ (length (trim s) <? 2) = false.
Proof.
  unfold nickname_rule. rewrite !Nat.ltb_ge. split.
  - intros (H0 & H1 & H2). repeat split; [lia | exact H1 | exact H2].
  - intros (H0 & H1 & H2). repeat split; [|exact H1 | exact H2].
    intros E. rewrite E in H2. cbn in H2. lia.
Qed.

(** ** Facts about the parser and the resolver *)

Section ZodFacts.
Import Zod HookForm.

(** Every issue of a string schema carries the path it was run at. *)
Lemma run_checks_paths z pth s : Forall (λ i, path i = pth) (snd (run_checks z pth s)).
Proof.
  revert s. induction z as [|[|n m|re m] z IH]; intros s; cbn [run_checks].
  - constructor.
  - apply IH.
  - destruct (_ <? _); cbn [snd]; [constructor; [reflexivity|]|]; apply IH.
  - destruct (RegExp.test _ _); cbn [snd]; [|constructor; [reflexivity|]]; apply IH.
Qed.

Lemma run_checks_data z pth s : fst (run_checks z pth s) = data_after z s.
Proof.
  revert s. induction z as [|[|n m|re m] z IH]; intros s; cbn [run_checks data_after].
  - reflexivity.
  - apply IH.
  - destruct (_ <? _); cbn [fst]; apply IH.
  - destruct (RegExp.test _ _); cbn [fst]; apply IH.
Qed.

Lemma status_of_valid issues : status_of issues = valid → issues = [].
Proof. destruct issues; [reflexivity | discriminate]. Qed.

Lemma merge_status_valid a b : merge_status a b = valid → a = valid ∧ b = valid.
Proof. destruct a, b; cbn; intros; try discriminate; auto. Qed.

Lemma ZodString_parse_valid z pth input v :
  fst (ZodString_parse z pth input) = Parsed valid v →
  snd (ZodString_parse z pth input) = [].
Proof.
  destruct input; cbn [ZodString_parse fst snd]; try discriminate.
  intros [= H _]. apply status_of_valid. exact H.
Qed.

Lemma ZodObject_parse_valid shape pth data o :
  fst (ZodObject_parse shape pth data) = Parsed valid o →
  snd (ZodObject_parse shape pth data) = [].
Proof.
  unfold ZodObject_parse. cbn [fst snd]. rewrite !map_map. cbn [fst snd].
  revert o. induction shape as [|[k z] shape IH]; intros o; [reflexivity|].
  cbn [map mergeObjectSync concat fst snd].
  destruct (fst (ZodString_parse z _ _)) as [|st v] eqn:E1; [discriminate|].
  destruct (mergeObjectSync _) as [|st' o'] eqn:E2; [discriminate|].
  intros [= Hst _]. apply merge_status_valid in Hst as [-> ->].
  rewrite (ZodString_parse_valid _ _ _ _ E1), (IH _ eq_refl). reflexivity.
Qed.

(** A valid result carries no issue. *)
Lemma ZodEffects_parse_valid e pth data o :
  fst (ZodEffects_parse e pth data) = Parsed valid o →
  snd (ZodEffects_parse e pth data) = [].
Proof.
  unfold ZodEffects_parse.
  destruct (fst (ZodObject_parse _ _ _)) as [|st v] eqn:E; cbn [fst snd]; [discriminate|].
  intros [= Hst _]. apply merge_status_valid in Hst as [-> Hi].
  rewrite (ZodObject_parse_valid _ _ _ _ E), (status_of_valid _ Hi). reflexivity.
Qed.

Lemma error_of_snoc errs k' m k :
  error_of (errs ++ [(k', m)]) k
  = match error_of errs k with
    | Some x => Some x
    | None => if bool_decide (k' = k) then Some m else None
    end.
Proof.
  induction errs as [|[k0 m0] errs IH]; cbn [app error_of]; [reflexivity|].
  destruct (bool_decide (k0 = k)); [reflexivity | exact IH].
Qed.

Lemma error_of_parseErrorSchema issues errs k :
  error_of (parseErrorSchema issues errs) k
  = match error_of errs k with
    | Some m => Some m
    | None => first_message issues k
    end.
Proof.
  revert errs. induction issues as [|i issues IH]; intros errs;
    cbn [parseErrorSchema first_message].
  - destruct (error_of errs k); reflexivity.
  - destruct (error_of errs (join (path i))) as [m|] eqn:E; rewrite IH.
    + destruct (error_of errs k) eqn:Ek; [reflexivity|].
      rewrite bool_decide_eq_false_2; [reflexivity|]. intros <-. congruence.
    + rewrite error_of_snoc. destruct (error_of errs k); [reflexivity|].
      destruct (bool_decide (join (path i) = k)); reflexivity.
Qed.

(** The message shown under a field is the message of the first issue of
    that field, whatever happened to the other fields. *)
Lemma shown_zodResolver {A} (parse : obj → ParseReturn A) values k :
  (∀ v, fst (parse values) = Parsed valid v → snd (parse values) = []) →
  shown (zodResolver parse values) k = first_message (snd (parse values)) k.
Proof.
  intros Hvalid. unfold zodResolver, safeParse, shown.
  destruct (fst (parse values)) as [|[|] v] eqn:E.
  - rewrite error_of_parseErrorSchema. reflexivity.
  - rewrite (Hvalid _ eq_refl). reflexivity.
  - rewrite error_of_parseErrorSchema. reflexivity.
Qed.

Lemma first_message_app l1 l2 k :
  first_message (l1 ++ l2) k
  = match first_message l1 k with
    | Some m => Some m
    | None => first_message l2 k
    end.
Proof.
  induction l1 as [|i l1 IH]; cbn [app first_message]; [reflexivity|].
  destruct (bool_decide _); [reflexivity | exact IH].
Qed.

Lemma first_message_other issues pth k :
  Forall (λ i, path i = pth) issues → join pth ≠ k → first_message issues k = None.
Proof.
  intros H Hk. induction H as [|i issues Hi _ IH]; [reflexivity|].
  cbn [first_message]. rewrite Hi, bool_decide_eq_false_2 by exact Hk. exact IH.
Qed.

(** The issues of the other fields do not show under field [k]. *)
Lemma first_message_field z k' s k :
  k' ≠ k → first_message (snd (run_checks z [k'] s)) k = None.
Proof.
  intros Hk. eapply first_message_other; [apply run_checks_paths | exact Hk].
Qed.

End ZodFacts.

(** The issues of the three schemas, field by field. *)

Ltac tidy_issues :=
  rewrite ?run_checks_data; cbn [data_after Zod.run_checks snd app];
  rewrite ?app_nil_r, <- ?app_assoc; reflexivity.

Lemma Cards_nickname_issues s :
  snd (Zod.ZodObject_parse Cards.nicknameSchema [] (Cards.nicknameValues s))
  = snd (Zod.run_checks
           (Zod.z_string .> Zod.z_trim .> Zod.z_nonempty msg_name_required
              .> Zod.z_regex nickname_re msg_name_pattern .> Zod.z_min 2 msg_name_min)
           [js "nickname"] s).
Proof.
  transitivity
    (snd (Zod.run_checks
            (Zod.z_string .> Zod.z_trim .> Zod.z_nonempty msg_name_required
               .> Zod.z_regex nickname_re msg_name_pattern .> Zod.z_min 2 msg_name_min)
            [js "nickname"] s) ++ []); [reflexivity|].
  apply app_nil_r.
Qed.

Lemma Cards_password_issues cur new conf :
  snd (Zod.ZodEffects_parse Cards.passwordSchema [] (Cards.passwordValues cur new conf))
  = snd (Zod.run_checks (Zod.z_string .> Zod.z_min 8 msg_password_min)
           [js "currentPassword"] cur)
    ++ snd (Zod.run_checks
              (Zod.z_string .> Zod.z_min 8 msg_password_min
                 .> Zod.z_regex repeat_re msg_password_repeat)
              [js "newPassword"] new)
    ++ mismatch_issue new conf.
Proof.
  set (zc := Zod.z_string .> Zod.z_min 8 msg_password_min).
  set (zn := Zod.z_string .> Zod.z_min 8 msg_password_min
               .> Zod.z_regex repeat_re msg_password_repeat).
  transitivity
    ((snd (Zod.run_checks zc [js "currentPassword"] cur)
      ++ snd (Zod.run_checks zn [js "newPassword"] new)
      ++ snd (Zod.run_checks Zod.z_string [js "confirmPassword"] conf) ++ [])
     ++ mismatch_issue (fst (Zod.run_checks zn [js "newPassword"] new))
                       (fst (Zod.run_checks Zod.z_string [js "confirmPassword"] conf)));
    [reflexivity|].
  subst zc zn. tidy_issues.
Qed.

Lemma Combined_form_issues nick pw new conf :
  snd (Zod.ZodEffects_parse Combined.formSchema [] (Combined.formValues nick pw new conf))
  = snd (Zod.run_checks
           (Zod.z_string .> Zod.z_trim .> Zod.z_nonempty msg_name_required
              .> Zod.z_regex nickname_re msg_name_pattern .> Zod.z_min 2 msg_name_min)
           [js "userNickname"] nick)
    ++ snd (Zod.run_checks (Zod.z_string .> Zod.z_min 8 msg_password_min)
              [js "password"] pw)
    ++ snd (Zod.run_checks
              (Zod.z_string .> Zod.z_min 8 msg_password_min
                 .> Zod.z_regex repeat_re msg_password_repeat)
              [js "newPassword"] new)
    ++ mismatch_issue new conf.
Proof.
  set (zu := Zod.z_string .> Zod.z_trim .> Zod.z_nonempty msg_name_required
               .> Zod.z_regex nickname_re msg_name_pattern .> Zod.z_min 2 msg_name_min).
  set (zc := Zod.z_string .> Zod.z_min 8 msg_password_min).
  set (zn := Zod.z_string .> Zod.z_min 8 msg_password_min
               .> Zod.z_regex repeat_re msg_password_repeat).
  transitivity
    ((snd (Zod.run_checks zu [js "userNickname"] nick)
      ++ snd (Zod.run_checks zc [js "password"] pw)
      ++ snd (Zod.run_checks zn [js "newPassword"] new)
      ++ snd (Zod.run_checks Zod.z_string [js "confirmPassword"] conf) ++ [])
     ++ mismatch_issue (fst (Zod.run_checks zn [js "newPassword"] new))
                       (fst (Zod.run_checks Zod.z_string [js "confirmPassword"] conf)));
    [reflexivity|].
  subst zu zc zn. tidy_issues.
Qed.

(** What each string schema shows under its own field. *)

Section FieldMessages.
Import Zod HookForm.
Variable k : jsstring.

Ltac own_field :=
  unfold z_regex, z_nonempty, z_min, z_trim, z_string;
  cbn [app run_checks];
  repeat match goal with
    | |- context [if ?b then _ else _] =>
        lazymatch b with
        | bool_decide _ => fail
        | _ => destruct b
        end
    end;
  cbn [snd fst first_message path message join];
  rewrite ?bool_decide_eq_true_2 by reflexivity; reflexivity.

Lemma first_message_min8 s :
  first_message (snd (run_checks (z_string .> z_min 8 msg_password_min) [k] s)) k
  = if length s <? 8 then Some msg_password_min else None.
Proof. own_field. Qed.

Lemma first_message_new s :
  first_message
    (snd (run_checks (z_string .> z_min 8 msg_password_min
                        .> z_regex repeat_re msg_password_repeat) [k] s)) k
  = if length s <? 8 then Some msg_password_min
    else if RegExp.test repeat_re s then None else Some msg_password_repeat.
Proof. own_field. Qed.

Lemma first_message_nickname s :
  first_message
    (snd (run_checks (z_string .> z_trim .> z_nonempty msg_name_required
                        .> z_regex nickname_re msg_name_pattern
                        .> z_min 2 msg_name_min) [k] s)) k
  = if length (trim s) <? 1 then Some msg_name_required
    else if RegExp.test nickname_re (trim s)
         then if length (trim s) <? 2 then Some msg_name_min else None
         else Some msg_name_pattern.
Proof. own_field. Qed.

Lemma first_message_mismatch new conf :
  first_message (mismatch_issue new conf) k
  = if bool_decide (new = conf) then None
    else if bool_decide (js "confirmPassword" = k) then Some msg_password_mismatch
         else None.
Proof.
  unfold mismatch_issue. rewrite strict_eq_string.
  destruct (bool_decide (new = conf)); reflexivity.
Qed.

End FieldMessages.

(** Drops the issues of another field, reads the issues of the field asked for. *)
Ltac skip_other :=
  match goal with
  | |- context [HookForm.first_message (snd (Zod.run_checks ?z [?k'] ?s)) ?k] =>
      rewrite (first_message_field z k' s k) by (vm_compute; discriminate)
  end.

Ltac read_own :=
  match goal with
  | |- context [HookForm.first_message (snd (Zod.run_checks _ [?k'] ?s)) ?k] =>
      first [ rewrite (first_message_min8 k s)
            | rewrite (first_message_new k s)
            | rewrite (first_message_nickname k s) ]
  end.

Ltac read_mismatch :=
  match goal with
  | |- context [HookForm.first_message (mismatch_issue ?new ?conf) ?k] =>
      rewrite (first_message_mismatch k new conf);
      first [ rewrite (bool_decide_eq_false_2 (js "confirmPassword" = k))
                by (vm_compute; discriminate)
            | rewrite (bool_decide_eq_true_2 (js "confirmPassword" = k))
                by (vm_compute; reflexivity) ]
  end.

Ltac read_messages :=
  rewrite ?first_message_app; repeat skip_other; repeat read_own; repeat read_mismatch.

(** The messages of the password form of the multi-card view. *)
Lemma Cards_password_shown cur new conf :
  let r := Cards.passwordResolver (Cards.passwordValues cur new conf) in
  HookForm.shown r (js "currentPassword")
  = (if length cur <? 8 then Some msg_password_min else None)
  ∧ HookForm.shown r (js "newPassword")
    = (if length new <? 8 then Some msg_password_min
       else if RegExp.test repeat_re new then None else Some msg_password_repeat)
  ∧ HookForm.shown r (js "confirmPassword")
    = (if bool_decide (new = conf) then None else Some msg_password_mismatch).
Proof.
  cbn zeta. unfold Cards.passwordResolver.
  rewrite !shown_zodResolver by apply ZodEffects_parse_valid.
  rewrite Cards_password_issues. repeat split; read_messages.
  - destruct (length cur <? 8); [reflexivity|].
    destruct (bool_decide (new = conf)); reflexivity.
  - destruct (length new <? 8); [reflexivity|].
    destruct (RegExp.test repeat_re new); [|reflexivity].
    destruct (bool_decide (new = conf)); reflexivity.
  - destruct (bool_decide (new = conf)); reflexivity.
Qed.

(** The messages of the combined form. *)
Lemma Combined_form_shown nick pw new conf :
  let r := Combined.resolver (Combined.formValues nick pw new conf) in
  HookForm.shown r (js "userNickname")
  = (if length (trim nick) <? 1 then Some msg_name_required
     else if RegExp.test nickname_re (trim nick)
          then if length (trim nick) <? 2 then Some msg_name_min else None
          else Some msg_name_pattern)
  ∧ HookForm.shown r (js "password")
    = (if length pw <? 8 then Some msg_password_min else None)
  ∧ HookForm.shown r (js "newPassword")
    = (if length new <? 8 then Some msg_password_min
       else if RegExp.test repeat_re new then None else Some msg_password_repeat)
  ∧ HookForm.shown r (js "confirmPassword")
    = (if bool_decide (new = conf) then None else Some msg_password_mismatch).
Proof.
  cbn zeta. unfold Combined.resolver.
  rewrite !shown_zodResolver by apply ZodEffects_parse_valid.
  rewrite Combined_form_issues. repeat split; read_messages.
  - destruct (length (trim nick) <? 1); [reflexivity|].
    destruct (RegExp.test nickname_re (trim nick)); [|reflexivity].
    destruct (length (trim nick) <? 2); [reflexivity|].
    destruct (bool_decide (new = conf)); reflexivity.
  - destruct (length pw <? 8); [reflexivity|].
    destruct (bool_decide (new = conf)); reflexivity.
  - destruct (length new <? 8); [reflexivity|].
    destruct (RegExp.test repeat_re new); [|reflexivity].
    destruct (bool_decide (new = conf)); reflexivity.
  - destruct (bool_decide (new = conf)); reflexivity.
Qed.

Lemma Cards_nickname_accepted s :
  HookForm.accepted (Cards.nicknameResolver (Cards.nicknameValues s)) = true
  ↔ nickname_rule s.
Proof.
  rewrite nickname_rule_tests. run_schema.
  destruct (length (trim s) <? 1), (RegExp.test nickname_re (trim s)),
    (length (trim s) <? 2); run_schema; intuition congruence.
Qed.

Lemma Combined_nickname_shown s pw new conf :
  HookForm.shown (Combined.resolver (Combined.formValues s pw new conf)) (js "userNickname")
    = None
  ↔ nickname_rule s.
Proof.
  destruct (Combined_form_shown s pw new conf) as [-> _].
  rewrite nickname_rule_tests.
  destruct (length (trim s) <? 1), (RegExp.test nickname_re (trim s)),
    (length (trim s) <? 2); intuition congruence.
Qed.

(** ** C1: nickname validation *)

(** C1. For every string [s] the nickname validation (the nickname form of the
    multi-card view, and the [userNickname] field of the combined form)
    accepts [s] if and only if [trim s] is non-empty, matches
    [^[a-zA-Z0-9가-힣]*$] and has length at least 2. "ab" is accepted, "a " is
    rejected with the minimum-length message, "홍길동!" with the pattern
    message. *)
Theorem nickname_validation :
  (∀ s, HookForm.accepted (Cards.nicknameResolver (Cards.nicknameValues s)) = true
        ↔ nickname_rule s)
  ∧ (∀ s pw new conf,
       HookForm.shown (Combined.resolver (Combined.formValues s pw new conf))
         (js "userNickname") = None
       ↔ nickname_rule s)
  ∧ Cards.nicknameResolver (Cards.nicknameValues (js "ab"))
    = inl [(js "nickname", VString (js "ab"))]
  ∧ Cards.nicknameResolver (Cards.nicknameValues (js "a "))
    = inr [(js "nickname", msg_name_min)]
  ∧ Cards.nicknameResolver (Cards.nicknameValues (js "홍길동!"))
    = inr [(js "nickname", msg_name_pattern)].
Proof.
  split; [exact Cards_nickname_accepted|].
  split; [exact Combined_nickname_shown|].
  repeat split; vm_compute; reflexivity.
Qed.

(** The class of the pattern: a-z, A-Z, 0-9 and the complete Hangul
    syllables U+AC00 to U+D7A3; jamo such as U+3131 are outside. *)
Remark nickname_class :
  (∀ c, nickname_unit c
        = in_ranges [(97, 122); (65, 90); (48, 57); (44032, 55203)]%N c)
  ∧ Cards.nicknameResolver (Cards.nicknameValues (js "ㄱㄴ"))
    = inr [(js "nickname", msg_name_pattern)]
  ∧ Cards.nicknameResolver (Cards.nicknameValues (js "   "))
    = inr [(js "nickname", msg_name_required)].
Proof. split; [intros c; reflexivity|]. split; vm_compute; reflexivity. Qed.

(** The pattern of the rule, unit by unit: letters, digits and complete
    Hangul syllables. *)
Lemma nickname_rule_units s :
  nickname_rule s ↔
  trim s ≠ [] ∧ Forall (λ c, nickname_unit c = true) (trim s) ∧ 2 ≤ length (trim s).
Proof.
  unfold nickname_rule. rewrite test_nickname_re, forallb_forall, Forall_forall.
  split; intros (H0 & H1 & H2); repeat split; try assumption.
  - intros c Hc. apply H1, list_elem_of_In, Hc.
  - intros c Hc. apply H1, list_elem_of_In, Hc.
Qed.

(** ** C2: the repeat check of the new password *)

(** The check, in words: it passes exactly on the strings without a line
    terminator (LF, CR, U+2028, U+2029) in which no unit occurs three times
    in a row. *)
Lemma repeat_check_iff p :
  RegExp.test repeat_re p = true
  ↔ Forall (λ c, isLineTerminator c = false) p ∧ NoTripleRepeat p.
Proof.
  rewrite test_repeat_re_units, andb_true_iff, negb_true_iff, has_triple_false.
  rewrite forallb_forall, Forall_forall. unfold dot_unit.
  split; intros [H1 H2]; (split; [|exact H2]); intros c Hc.
  - apply negb_true_iff, H1, list_elem_of_In, Hc.
  - apply negb_true_iff, H1, list_elem_of_In, Hc.
Qed.

(** On the strings an input can hold without line terminators the check is
    the rule of the specification; its two scenarios. *)
Lemma repeat_check_scenarios :
  RegExp.test repeat_re (js "aaabbbb1") = false
  ∧ RegExp.test repeat_re (js "abcabcab") = true
  ∧ 8 ≤ length (js "abcabcab").
Proof. vm_compute. repeat split; lia. Qed.

(** The units are UTF-16 code units: a character outside the BMP is a pair
    of units, and three of them in a row are no repeated unit. *)
Remark repeat_check_code_units :
  js "😀😀😀" = [55357; 56832; 55357; 56832; 55357; 56832]%N
  ∧ RegExp.test repeat_re (js "😀😀😀ab") = true.
Proof. vm_compute. split; reflexivity. Qed.

(** C2. The new-password repeat check should accept [p] exactly when no
    character occurs three or more times consecutively. The pattern's [.]
    does not match a line terminator: the password "abcdefg" followed by
    U+2028 has eight units and no repeated unit, and both forms reject it
    with the message about repeated characters. *)
Theorem repeat_check_rejects_line_separator :
  let p := js "abcdefg" ++ [8232%N] in
  NoTripleRepeat p
  ∧ 8 ≤ length p
  ∧ RegExp.test repeat_re p = false
  ∧ HookForm.shown (Cards.passwordResolver (Cards.passwordValues (js "password1") p p))
      (js "newPassword") = Some msg_password_repeat
  ∧ HookForm.shown
      (Combined.resolver (Combined.formValues (js "홍길동") (js "password1") p p))
      (js "newPassword") = Some msg_password_repeat.
Proof.
  cbn zeta. split; [apply has_triple_false; vm_compute; reflexivity|].
  split; [vm_compute; lia|].
  repeat split; vm_compute; reflexivity.
Qed.

(** ** C3: the confirmation check *)

Lemma strict_eq_iff a b : strict_eq (VString a) (VString b) = true ↔ a = b.
Proof. rewrite strict_eq_string. apply bool_decide_eq_true. Qed.

Lemma Cards_refinement cur new conf :
  Zod.executeRefinement Cards.passwordSchema [] (Cards.passwordValues cur new conf)
  = mismatch_issue new conf.
Proof. reflexivity. Qed.

Lemma Combined_refinement nick pw new conf :
  Zod.executeRefinement Combined.formSchema [] (Combined.formValues nick pw new conf)
  = mismatch_issue new conf.
Proof. reflexivity. Qed.

Lemma mismatch_issue_nil new conf : mismatch_issue new conf = [] ↔ new = conf.
Proof.
  unfold mismatch_issue. rewrite <- strict_eq_iff.
  destruct (strict_eq _ _); split; intros; congruence.
Qed.

Lemma mismatch_issue_ne new conf :
  new ≠ conf →
  mismatch_issue new conf
  = [Zod.mkIssue Zod.custom [js "confirmPassword"] msg_password_mismatch].
Proof.
  intros H. unfold mismatch_issue. rewrite strict_eq_string.
  rewrite bool_decide_eq_false_2 by exact H. reflexivity.
Qed.

(** C3. For every pair [(new, conf)] the confirmation check of the password
    form passes if and only if [new = conf]; when it fails its one issue has
    the path of the confirm field, the message is shown under the confirm
    field, and the messages under the other fields are what they are when
    the confirmation matches. Both forms. *)
Theorem confirmation_check :
  (∀ cur new conf,
     let r := Cards.passwordResolver (Cards.passwordValues cur new conf) in
     let same := Cards.passwordResolver (Cards.passwordValues cur new new) in
     (Zod.executeRefinement Cards.passwordSchema [] (Cards.passwordValues cur new conf) = []
      ↔ new = conf)
     ∧ (new ≠ conf →
        Zod.executeRefinement Cards.passwordSchema [] (Cards.passwordValues cur new conf)
        = [Zod.mkIssue Zod.custom [js "confirmPassword"] msg_password_mismatch]
        ∧ HookForm.shown r (js "confirmPassword") = Some msg_password_mismatch)
     ∧ (HookForm.shown r (js "confirmPassword") = None ↔ new = conf)
     ∧ HookForm.shown r (js "newPassword") = HookForm.shown same (js "newPassword")
     ∧ HookForm.shown r (js "currentPassword") = HookForm.shown same (js "currentPassword"))
  ∧ (∀ nick pw new conf,
       let r := Combined.resolver (Combined.formValues nick pw new conf) in
       let same := Combined.resolver (Combined.formValues nick pw new new) in
       (Zod.executeRefinement Combined.formSchema [] (Combined.formValues nick pw new conf)
        = [] ↔ new = conf)
       ∧ (new ≠ conf →
          Zod.executeRefinement Combined.formSchema [] (Combined.formValues nick pw new conf)
          = [Zod.mkIssue Zod.custom [js "confirmPassword"] msg_password_mismatch]
          ∧ HookForm.shown r (js "confirmPassword") = Some msg_password_mismatch)
       ∧ (HookForm.shown r (js "confirmPassword") = None ↔ new = conf)
       ∧ HookForm.shown r (js "newPassword") = HookForm.shown same (js "newPassword")
       ∧ HookForm.shown r (js "password") = HookForm.shown same (js "password")
       ∧ HookForm.shown r (js "userNickname") = HookForm.shown same (js "userNickname")).
Proof.
  split.
  - intros cur new conf r same. subst r same.
    destruct (Cards_password_shown cur new conf) as (Hc & Hn & Hf).
    destruct (Cards_password_shown cur new new) as (Hc' & Hn' & _).
    cbn zeta in *. rewrite Cards_refinement, Hc, Hn, Hf, Hc', Hn'.
    split; [apply mismatch_issue_nil|].
    split; [intros H; split; [apply mismatch_issue_ne, H|];
            rewrite bool_decide_eq_false_2 by exact H; reflexivity|].
    split; [|split; reflexivity].
    case_bool_decide; split; intros; congruence.
  - intros nick pw new conf r same. subst r same.
    destruct (Combined_form_shown nick pw new conf) as (Hu & Hc & Hn & Hf).
    destruct (Combined_form_shown nick pw new new) as (Hu' & Hc' & Hn' & _).
    cbn zeta in *. rewrite Combined_refinement, Hu, Hc, Hn, Hf, Hu', Hc', Hn'.
    split; [apply mismatch_issue_nil|].
    split; [intros H; split; [apply mismatch_issue_ne, H|];
            rewrite bool_decide_eq_false_2 by exact H; reflexivity|].
    split; [|repeat split; reflexivity].
    case_bool_decide; split; intros; congruence.
Qed.

(** The scenario of C3: "password1" and "password2" differ, the confirm
    field shows the mismatch, the new-password field shows nothing. *)
Lemma confirmation_check_witness :
  HookForm.shown
    (Cards.passwordResolver
       (Cards.passwordValues (js "password0") (js "password1") (js "password2")))
    (js "confirmPassword") = Some msg_password_mismatch
  ∧ HookForm.shown
      (Cards.passwordResolver
         (Cards.passwordValues (js "password0") (js "password1") (js "password2")))
      (js "newPassword") = None.
Proof.
  destruct confirmation_check as [H _].
  destruct (H (js "password0") (js "password1") (js "password2"))
    as (_ & Hne & _ & Hnew & _).
  split.
  - apply Hne. vm_compute. discriminate.
  - cbn zeta in Hnew. rewrite Hnew. vm_compute. reflexivity.
Defined.

(** ** C4: no message under a field means the field satisfies its rule *)

Lemma length_rule (s : jsstring) : (length s <? 8) = false → 8 ≤ length s.
Proof. apply Nat.ltb_ge. Qed.

Lemma current_rule (s : jsstring) :
  (if length s <? 8 then Some msg_password_min else None) = None → 8 ≤ length s.
Proof. destruct (length s <? 8) eqn:E; [discriminate|]. intros _. apply length_rule, E. Qed.

Lemma new_rule (s : jsstring) :
  (if length s <? 8 then Some msg_password_min
   else if RegExp.test repeat_re s then None else Some msg_password_repeat) = None →
  8 ≤ length s ∧ NoTripleRepeat s.
Proof.
  destruct (length s <? 8) eqn:E; [discriminate|].
  destruct (RegExp.test repeat_re s) eqn:T; [|discriminate].
  intros _. split; [apply length_rule, E|]. apply repeat_check_iff in T. apply T.
Qed.

Lemma confirm_rule (new conf : jsstring) :
  (if bool_decide (new = conf) then None else Some msg_password_mismatch) = None →
  conf = new.
Proof. case_bool_decide; [congruence | discriminate]. Qed.

(** C4. For every input of the password validation, a field with no message
    satisfies its rule: the current password has at least 8 units, the new
    password has at least 8 units and no unit three times in a row, the
    confirmation equals the new password; each whatever the other fields do.
    Both forms; in the combined form also the nickname. *)
Theorem no_message_means_rule :
  (∀ cur new conf,
     let r := Cards.passwordResolver (Cards.passwordValues cur new conf) in
     (HookForm.shown r (js "currentPassword") = None → 8 ≤ length cur)
     ∧ (HookForm.shown r (js "newPassword") = None → 8 ≤ length new ∧ NoTripleRepeat new)
     ∧ (HookForm.shown r (js "confirmPassword") = None → conf = new))
  ∧ (∀ nick pw new conf,
       let r := Combined.resolver (Combined.formValues nick pw new conf) in
       (HookForm.shown r (js "userNickname") = None → nickname_rule nick)
       ∧ (HookForm.shown r (js "password") = None → 8 ≤ length pw)
       ∧ (HookForm.shown r (js "newPassword") = None → 8 ≤ length new ∧ NoTripleRepeat new)
       ∧ (HookForm.shown r (js "confirmPassword") = None → conf = new)).
Proof.
  split.
  - intros cur new conf r. subst r.
    destruct (Cards_password_shown cur new conf) as (-> & -> & ->).
    split; [apply current_rule|]. split; [apply new_rule | apply confirm_rule].
  - intros nick pw new conf r.
    split; [apply Combined_nickname_shown|]. subst r.
    destruct (Combined_form_shown nick pw new conf) as (_ & -> & -> & ->).
    split; [apply current_rule|]. split; [apply new_rule | apply confirm_rule].
Qed.

Lemma no_message_means_rule_witness :
  8 ≤ length (js "password0")
  ∧ (8 ≤ length (js "password1") ∧ NoTripleRepeat (js "password1"))
  ∧ js "password1" = js "password1".
Proof.
  destruct no_message_means_rule as [H _].
  destruct (H (js "password0") (js "password1") (js "password1")) as (H1 & H2 & H3).
  split; [apply H1; vm_compute; reflexivity|].
  split; [apply H2; vm_compute; reflexivity | apply H3; vm_compute; reflexivity].
Defined.

(** The messages a submit leaves in the form state are the resolver's. *)
Lemma Cards_submitPassword_errors st k :
  HookForm.error_of (HookForm.errors (Cards.passwordForm (fst (Cards.submitPassword st)))) k
  = HookForm.shown
      (Cards.passwordResolver
         (HookForm.submitted [js "currentPassword"; js "newPassword"; js "confirmPassword"]
            (Cards.passwordForm st))) k.
Proof. unfold Cards.submitPassword. destruct (Cards.passwordResolver _); reflexivity. Qed.

Lemma Combined_submit_errors st k :
  HookForm.error_of (HookForm.errors (Combined.form (fst (Combined.submit st)))) k
  = HookForm.shown
      (Combined.resolver (HookForm.submitted Combined.fieldNames (Combined.form st))) k.
Proof. unfold Combined.submit. destruct (Combined.resolver _); reflexivity. Qed.

Lemma get_set o k v : Zod.get (HookForm.set o k v) k = v.
Proof.
  induction o as [|[k' v'] o IH]; cbn [HookForm.set Zod.get].
  - rewrite bool_decide_eq_true_2 by reflexivity. reflexivity.
  - case_bool_decide as E; cbn [Zod.get].
    + rewrite bool_decide_eq_true_2 by reflexivity. reflexivity.
    + rewrite bool_decide_eq_false_2 by exact E. exact IH.
Qed.

Lemma get_set_ne o k k' v : k' ≠ k → Zod.get (HookForm.set o k' v) k = Zod.get o k.
Proof.
  intros Hk. induction o as [|[k0 v0] o IH]; cbn [HookForm.set Zod.get].
  - rewrite bool_decide_eq_false_2 by exact Hk. reflexivity.
  - case_bool_decide as E; cbn [Zod.get].
    + subst k0. rewrite !bool_decide_eq_false_2 by exact Hk. reflexivity.
    + destruct (bool_decide (k0 = k)); [reflexivity | exact IH].
Qed.

Ltac read_field :=
  unfold HookForm.watch, HookForm.onChange; cbn [HookForm.fieldValues];
  repeat (rewrite get_set_ne by (vm_compute; discriminate));
  rewrite get_set; reflexivity.

(** With the three password fields typed, whatever the form held before, the
    resolver gets the typed strings. *)
Lemma Cards_submitted_typed cur new conf f :
  HookForm.submitted [js "currentPassword"; js "newPassword"; js "confirmPassword"]
    (HookForm.onChange (js "confirmPassword") conf
       (HookForm.onChange (js "newPassword") new
          (HookForm.onChange (js "currentPassword") cur f)))
  = Cards.passwordValues cur new conf.
Proof.
  unfold HookForm.submitted, Cards.passwordValues. cbn [map].
  repeat f_equal; read_field.
Qed.

Lemma Combined_submitted_typed nick pw new conf f :
  HookForm.submitted Combined.fieldNames
    (HookForm.onChange (js "confirmPassword") conf
       (HookForm.onChange (js "newPassword") new
          (HookForm.onChange (js "password") pw
             (HookForm.onChange (js "userNickname") nick f))))
  = Combined.formValues nick pw new conf.
Proof.
  unfold HookForm.submitted, Combined.formValues, Combined.fieldNames. cbn [map].
  repeat f_equal; read_field.
Qed.

(** The forms hand strings to the resolver: a field never typed into is the
    empty string. A missing field would abort the object schema before the
    refinement runs, and the mismatch would then not be reported. *)
Remark refinement_needs_every_field :
  Cards.passwordResolver
    [(js "newPassword", VString (js "password1"));
     (js "confirmPassword", VString (js "password2"))]
  = inr [(js "currentPassword", js "Required")].
Proof. vm_compute. reflexivity. Qed.

Lemma submitted_strings names f k :
  k ∈ names →
  (∀ k', Zod.get (HookForm.fieldValues f) k' ≠ VNull) →
  ∃ s, Zod.get (HookForm.submitted names f) k = VString s.
Proof.
  intros Hk Hf. unfold HookForm.submitted.
  induction names as [|k0 names IH]; [inversion Hk|].
  cbn [map Zod.get]. case_bool_decide as E.
  - subst k0. unfold HookForm.watch. specialize (Hf k).
    destruct (Zod.get (HookForm.fieldValues f) k); [eauto | congruence | eauto].
  - apply IH. apply elem_of_cons in Hk as [->|Hk]; [congruence | exact Hk].
Qed.

(** ** C6, C10: the category toggle *)

Lemma Combined_toggle : Combined.toggle = Cards.toggle.
Proof. reflexivity. Qed.

Lemma toggle_elem (c : jsstring) (sel : list jsstring) (x : jsstring) :
  x ∈ Cards.toggle c sel ↔ (x ∈ sel ∧ x ≠ c) ∨ (x = c ∧ c ∉ sel).
Proof.
  unfold Cards.toggle. case_bool_decide as H.
  - rewrite list_elem_of_filter. split.
    + intros [H1 H2]. left. auto.
    + intros [[H1 H2]|[-> H2]]; [auto | contradiction].
  - rewrite elem_of_app, list_elem_of_singleton. split.
    + intros [H1| ->]; [left | right; auto]. split; [exact H1|]. intros ->. contradiction.
    + intros [[H1 H2]|[-> H2]]; auto.
Qed.

Lemma double_toggle_elem (c : jsstring) (sel : list jsstring) (x : jsstring) :
  x ∈ Cards.toggle c (Cards.toggle c sel) ↔ x ∈ sel.
Proof.
  rewrite !toggle_elem.
  destruct (decide (x = c)) as [->|Hx], (decide (c ∈ sel)) as [Hc|Hc]; tauto.
Qed.

(** C6. For every selection and every label, toggling the label twice gives
    back the same set of selected labels, in both views. *)
Theorem toggle_twice (sel : list jsstring) (c : jsstring) :
  list_to_set (Cards.toggle c (Cards.toggle c sel)) =@{gset jsstring} list_to_set sel
  ∧ list_to_set (Combined.toggle c (Combined.toggle c sel)) =@{gset jsstring} list_to_set sel
  ∧ (∀ st, list_to_set (Cards.categories (Cards.toggleCategory c (Cards.toggleCategory c st)))
           =@{gset jsstring} list_to_set (Cards.categories st))
  ∧ (∀ st, list_to_set
             (Combined.categories (Combined.toggleCategory c (Combined.toggleCategory c st)))
           =@{gset jsstring} list_to_set (Combined.categories st)).
Proof.
  rewrite Combined_toggle.
  assert (∀ l, list_to_set (Cards.toggle c (Cards.toggle c l)) =@{gset jsstring} list_to_set l)
    as H.
  { intros l. apply set_eq. intros x. rewrite !elem_of_list_to_set. apply double_toggle_elem. }
  repeat split; try apply H; intros st; apply H.
Qed.

(** Only the set is kept: the label moves to the end of the list. *)
Remark double_toggle_order :
  Cards.toggle (js "축구") (Cards.toggle (js "축구") [js "축구"; js "농구"])
  = [js "농구"; js "축구"].
Proof. vm_compute. reflexivity. Qed.

(** C10. The toggle keeps a selection free of duplicates, and toggling a
    label that is present removes every occurrence of it. Both views. *)
Theorem toggle_NoDup (sel : list jsstring) (c : jsstring) :
  (NoDup sel → NoDup (Cards.toggle c sel) ∧ NoDup (Combined.toggle c sel))
  ∧ (c ∈ sel → (c ∉ Cards.toggle c sel) ∧ (c ∉ Combined.toggle c sel)).
Proof.
  rewrite Combined_toggle. split.
  - intros Hnd. assert (NoDup (Cards.toggle c sel)) as H; [|auto].
    unfold Cards.toggle. case_bool_decide as Hc.
    + apply NoDup_filter, Hnd.
    + apply NoDup_app. split; [exact Hnd|]. split; [|apply NoDup_singleton].
      intros x Hx ->%list_elem_of_singleton. contradiction.
  - intros Hc. assert (c ∉ Cards.toggle c sel) as H; [|auto].
    rewrite toggle_elem. intros [[_ H]|[_ H]]; contradiction.
Qed.

Lemma toggle_NoDup_witness :
  NoDup (Cards.toggle (js "농구") [js "축구"; js "농구"])
  ∧ (js "농구" ∉ Cards.toggle (js "농구") [js "농구"; js "축구"; js "농구"]).
Proof.
  split.
  - apply (toggle_NoDup [js "축구"; js "농구"] (js "농구")).
    apply (bool_decide_unpack _). vm_compute. exact I.
  - apply (toggle_NoDup [js "농구"; js "축구"; js "농구"] (js "농구")).
    apply (bool_decide_unpack _). vm_compute. exact I.
Defined.

(** ** C7: the selection stays within the offered labels *)

Section Selection.
Variable options : list jsstring.

Lemma toggle_within (c : jsstring) (sel : list jsstring) :
  c ∈ options → Forall (λ x, x ∈ options) sel →
  Forall (λ x, x ∈ options) (Cards.toggle c sel).
Proof.
  intros Hc Hsel. apply Forall_forall. intros x Hx.
  apply toggle_elem in Hx as [[Hx _]|[-> _]]; [|exact Hc].
  rewrite Forall_forall in Hsel. apply Hsel, Hx.
Qed.

Lemma toggles_within (picks sel : list jsstring) :
  Forall (λ c, c ∈ options) picks → Forall (λ x, x ∈ options) sel →
  Forall (λ x, x ∈ options) (foldl (λ l c, Cards.toggle c l) sel picks).
Proof.
  intros Hp. revert sel. induction Hp as [|c picks Hc _ IH]; intros sel Hsel; [exact Hsel|].
  cbn [foldl]. apply IH, toggle_within; assumption.
Qed.

End Selection.

Lemma Cards_toggles picks st :
  Cards.categories (foldl (λ st c, Cards.toggleCategory c st) st picks)
  = foldl (λ l c, Cards.toggle c l) (Cards.categories st) picks.
Proof. revert st. induction picks as [|c picks IH]; intros st; [reflexivity|]. apply IH. Qed.

Lemma Combined_toggles picks st :
  Combined.categories (foldl (λ st c, Combined.toggleCategory c st) st picks)
  = foldl (λ l c, Cards.toggle c l) (Combined.categories st) picks.
Proof. revert st. induction picks as [|c picks IH]; intros st; [reflexivity|]. apply IH. Qed.

(** Toggling the labels of a duplicate-free list one after the other selects
    exactly that list. *)
Lemma toggles_reach (pre sel : list jsstring) :
  NoDup (pre ++ sel) → foldl (λ l c, Cards.toggle c l) pre sel = pre ++ sel.
Proof.
  revert pre. induction sel as [|c sel IH]; intros pre Hnd; [symmetry; apply app_nil_r|].
  cbn [foldl]. assert (c ∉ pre) as Hc.
  { apply NoDup_app in Hnd as (_ & H & _). intros Hin. apply (H c Hin). left. }
  unfold Cards.toggle at 2. rewrite bool_decide_eq_false_2 by exact Hc.
  rewrite IH; rewrite <- app_assoc; [reflexivity | exact Hnd].
Qed.

(** C7. Starting from the empty selection, after any sequence of toggles of
    offered labels every selected label is one of the 7 offered labels; the
    submit of the category card runs no validation and reports success for
    the selection as it is; every duplicate-free list of labels is reached by
    toggling its labels; and in the combined form the messages after a submit
    do not depend on the selection. *)
Theorem category_selection :
  length Cards.categoryOptions = 7 ∧ length Combined.categoryOptions = 7
  ∧ (∀ picks, Forall (λ c, c ∈ Cards.categoryOptions) picks →
       let st := foldl (λ st c, Cards.toggleCategory c st) Cards.initial picks in
       Forall (λ c, c ∈ Cards.categoryOptions) (Cards.categories st)
       ∧ Cards.handleCategorySubmit st
         = [console_log_list (js "선택된 카테고리:") (Cards.categories st);
            toast (js "카테고리 업데이트") (js "카테고리가 성공적으로 업데이트되었습니다.")])
  ∧ (∀ picks, Forall (λ c, c ∈ Combined.categoryOptions) picks →
       Forall (λ c, c ∈ Combined.categoryOptions)
         (Combined.categories
            (foldl (λ st c, Combined.toggleCategory c st) Combined.initial picks)))
  ∧ (∀ sel, NoDup sel →
       Cards.categories (foldl (λ st c, Cards.toggleCategory c st) Cards.initial sel) = sel
       ∧ Combined.categories
           (foldl (λ st c, Combined.toggleCategory c st) Combined.initial sel) = sel)
  ∧ (∀ st sel,
       HookForm.errors
         (Combined.form (fst (Combined.submit (Combined.setCategories (λ _, sel) st))))
       = HookForm.errors (Combined.form (fst (Combined.submit st)))).
Proof.
  split; [reflexivity|]. split; [reflexivity|]. split; [|split; [|split]].
  - intros picks Hp st. subst st. split; [|reflexivity].
    rewrite Cards_toggles. apply toggles_within; [exact Hp | constructor].
  - intros picks Hp. rewrite Combined_toggles. apply toggles_within; [exact Hp | constructor].
  - intros sel Hnd. rewrite Cards_toggles, Combined_toggles. split; apply (toggles_reach []), Hnd.
  - intros st sel. unfold Combined.submit.
    cbn [Combined.form Combined.setCategories].
    destruct (Combined.resolver _); reflexivity.
Qed.

Lemma category_selection_witness :
  Forall (λ c, c ∈ Cards.categoryOptions)
    (Cards.categories
       (foldl (λ st c, Cards.toggleCategory c st) Cards.initial
          [js "축구"; js "런닝"; js "축구"; js "테니스"]))
  ∧ Combined.categories
      (foldl (λ st c, Combined.toggleCategory c st) Combined.initial
         [js "스쿠버다이빙"; js "야구"])
    = [js "스쿠버다이빙"; js "야구"].
Proof.
  destruct category_selection as (_ & _ & H1 & _ & H2 & _). split.
  - apply H1. apply (bool_decide_unpack _). vm_compute. exact I.
  - apply H2. apply (bool_decide_unpack _). vm_compute. exact I.
Defined.

(** ** C5: cancel in the combined form *)

Lemma NoDup_categoryOptions : NoDup Combined.categoryOptions.
Proof. apply (bool_decide_unpack _). vm_compute. exact I. Qed.

(** The updaters the checkboxes queue on a reset event, on the selection. *)
Lemma checkboxesOnReset_fold st opts acc :
  Combined.categories
    (foldl (λ acc c, if Combined.checked st c then Combined.toggleCategory c acc else acc)
       acc opts)
  = foldl (λ l c, if bool_decide (c ∈ Combined.categories st) then Cards.toggle c l else l)
      (Combined.categories acc) opts.
Proof.
  revert acc. induction opts as [|c opts IH]; intros acc; [reflexivity|].
  cbn [foldl]. rewrite IH. unfold Combined.checked.
  destruct (bool_decide (c ∈ Combined.categories st)); reflexivity.
Qed.

Lemma reset_fold_elem (sel0 opts l : list jsstring) (x : jsstring) :
  NoDup opts →
  (∀ y, y ∈ l → y ∈ sel0) →
  (∀ c, c ∈ opts → c ∈ sel0 → c ∈ l) →
  x ∈ foldl (λ l c, if bool_decide (c ∈ sel0) then Cards.toggle c l else l) l opts
  ↔ x ∈ l ∧ x ∉ opts.
Proof.
  intros Hnd. revert l. induction Hnd as [|c opts Hc Hnd IH]; intros l Hsub Hin; cbn [foldl].
  - split; [intros H; split; [exact H | apply not_elem_of_nil] | intros [H _]; exact H].
  - rewrite not_elem_of_cons. case_bool_decide as Hc0.
    + assert (c ∈ l) as Hl by (apply Hin; [left | exact Hc0]).
      rewrite IH.
      * rewrite toggle_elem. tauto.
      * intros y Hy. apply toggle_elem in Hy as [[Hy _]|[_ Hy]]; [apply Hsub, Hy | contradiction].
      * intros c' Hc' Hc'0. apply toggle_elem. left. split.
        -- apply Hin; [right; exact Hc' | exact Hc'0].
        -- intros ->. contradiction.
    + rewrite IH; [| exact Hsub | intros c' Hc' Hc'0; apply Hin; [right; exact Hc' | exact Hc'0]].
      split; [|tauto]. intros [Hx Hn]. split; [exact Hx|]. split; [|exact Hn].
      intros ->. apply Hc0, Hsub, Hx.
Qed.

(** After the reset event the selection holds what it held outside the
    offered labels, and nothing else. *)
Lemma checkboxesOnReset_elem st x :
  x ∈ Combined.categories (Combined.checkboxesOnReset st)
  ↔ x ∈ Combined.categories st ∧ x ∉ Combined.categoryOptions.
Proof.
  unfold Combined.checkboxesOnReset. rewrite checkboxesOnReset_fold.
  apply reset_fold_elem; [apply NoDup_categoryOptions | tauto | tauto].
Qed.

Lemma reset_unchecked_fold st opts acc :
  (∀ c, c ∈ opts → c ∉ Combined.categories st) →
  foldl (λ acc c, if Combined.checked st c then Combined.toggleCategory c acc else acc)
    acc opts
  = acc.
Proof.
  induction opts as [|c opts IH]; intros H; [reflexivity|].
  cbn [foldl]. unfold Combined.checked at 2.
  rewrite bool_decide_eq_false_2 by (apply H; left).
  apply IH. intros c' Hc'. apply H. right. exact Hc'.
Qed.

Lemma checkboxesOnReset_unchecked st :
  (∀ c, c ∈ Combined.categoryOptions → c ∉ Combined.categories st) →
  Combined.checkboxesOnReset st = st.
Proof. apply reset_unchecked_fold. Qed.

Lemma handleCancel_categories st x :
  x ∈ Combined.categories (Combined.handleCancel st)
  ↔ x ∈ Combined.categories st ∧ x ∉ Combined.categoryOptions.
Proof. apply checkboxesOnReset_elem. Qed.

Lemma handleCancel_selection_empty st :
  Forall (λ c, c ∈ Combined.categoryOptions) (Combined.categories st) →
  Combined.categories (Combined.handleCancel st) = [].
Proof.
  intros H. rewrite Forall_forall in H.
  destruct (Combined.categories (Combined.handleCancel st)) as [|x l] eqn:E; [reflexivity|].
  assert (x ∈ Combined.categories (Combined.handleCancel st)) as Hx by (rewrite E; left).
  apply handleCancel_categories in Hx as [Hx Hn]. exfalso. apply Hn, H, Hx.
Qed.

(** The reset event of the button itself finds no checkbox checked. *)
Lemma clickCancel_handleCancel st : Combined.clickCancel st = Combined.handleCancel st.
Proof.
  apply checkboxesOnReset_unchecked. intros c Hc Hin.
  apply handleCancel_categories in Hin as [_ Hn]. contradiction.
Qed.

(** What [handleCancel] does to every state: the image draft, the form and
    the file input are emptied, the route is the profile view, and the
    selection loses every offered label. *)
Lemma handleCancel_effect st :
  Combined.profileImage (Combined.handleCancel st) = VString []
  ∧ Combined.form (Combined.handleCancel st) = HookForm.useForm
  ∧ Combined.location (Combined.handleCancel st) = js "/my-profile"
  ∧ (∀ c, c ∈ Combined.categoryOptions → c ∉ Combined.categories (Combined.handleCancel st)).
Proof.
  split; [reflexivity|]. split; [reflexivity|]. split; [reflexivity|].
  intros c Hc Hin. apply handleCancel_categories in Hin as [_ Hn]. contradiction.
Qed.

(** The selection stays within the offered labels whatever the user does
    before a save, as long as the labels clicked are offered ones. *)
Lemma run_within events :
  (∀ c, Combined.Toggled c ∈ events → c ∈ Combined.categoryOptions) →
  Forall (λ c, c ∈ Combined.categoryOptions) (Combined.categories (Combined.run events)).
Proof.
  unfold Combined.run.
  assert (Forall (λ c, c ∈ Combined.categoryOptions) (Combined.categories Combined.initial))
    as H0 by constructor.
  revert H0. generalize Combined.initial.
  induction events as [|e events IH]; intros st Hst Hev; [exact Hst|].
  cbn [foldl]. apply IH; [|intros c Hc; apply Hev; right; exact Hc].
  destruct e as [name s|c|files|i|]; cbn [Combined.handle].
  - exact Hst.
  - apply (toggle_within Combined.categoryOptions); [apply Hev; left | exact Hst].
  - unfold Combined.handleImageChange. destruct (head files); exact Hst.
  - unfold Combined.onloadend. destruct (Combined.readers st !! i); exact Hst.
  - rewrite handleCancel_selection_empty by exact Hst. constructor.
Qed.

(** C5. In the combined form, for every in-progress state whose selection
    consists of offered labels (as it does after whatever the user did
    before), cancel resets the image draft, the form fields and the category
    selection to their initial empty values and sets the route to the
    profile view; the reset event of the cancel button itself changes
    nothing more. *)
Theorem cancel_clears_edits :
  (∀ st,
     Forall (λ c, c ∈ Combined.categoryOptions) (Combined.categories st) →
     let st' := Combined.handleCancel st in
     Combined.profileImage st' = Combined.profileImage Combined.initial
     ∧ Combined.form st' = Combined.form Combined.initial
     ∧ Combined.categories st' = Combined.categories Combined.initial
     ∧ Combined.location st' = js "/my-profile"
     ∧ Combined.clickCancel st = st')
  ∧ Combined.profileImage Combined.initial = VString []
  ∧ Combined.form Combined.initial = HookForm.useForm
  ∧ Combined.categories Combined.initial = []
  ∧ (∀ events,
       (∀ c, Combined.Toggled c ∈ events → c ∈ Combined.categoryOptions) →
       Forall (λ c, c ∈ Combined.categoryOptions) (Combined.categories (Combined.run events))
       ∧ Combined.categories (Combined.handleCancel (Combined.run events)) = []).
Proof.
  split; [|split; [reflexivity|split; [reflexivity|split; [reflexivity|]]]].
  - intros st Hst st'. subst st'.
    destruct (handleCancel_effect st) as (Hp & Hf & Hl & _).
    split; [exact Hp|]. split; [exact Hf|].
    split; [apply handleCancel_selection_empty, Hst|].
    split; [exact Hl | apply clickCancel_handleCancel].
  - intros events Hev. pose proof (run_within events Hev) as H.
    split; [exact H | apply handleCancel_selection_empty, H].
Qed.

Lemma cancel_clears_edits_witness :
  Combined.categories
    (Combined.handleCancel
       (Combined.toggleCategory (js "야구")
          (Combined.typeNickname (js "홍길동")
             (Combined.toggleCategory (js "축구") Combined.initial))))
  = [].
Proof.
  destruct cancel_clears_edits as [H _].
  apply (H (Combined.toggleCategory (js "야구")
              (Combined.typeNickname (js "홍길동")
                 (Combined.toggleCategory (js "축구") Combined.initial)))).
  apply (bool_decide_unpack _). vm_compute. exact I.
Defined.

(** ** C8: the image draft *)

Lemma lookup_snoc_length {A} (l : list A) (x : A) : (l ++ [x]) !! length l = Some x.
Proof. rewrite lookup_app_r by lia. rewrite Nat.sub_diag. reflexivity. Qed.

(** C8. For every file-selection event, in both views: with no file the
    state, and with it the preview value, is unchanged, and while the draft
    is empty the avatar shows the default placeholder; with a file, the
    preview value stays as it is until the read ends and is then the file's
    data URL, whatever it was before. *)
Theorem image_change :
  (∀ st, Cards.handleImageChange [] st = st
         ∧ (Cards.profileImage st = VString [] →
            Cards.avatarSrc (Cards.handleImageChange [] st) = VString defaultImage))
  ∧ (∀ st file files url,
       readAsDataURL file = VString url →
       let st' := Cards.handleImageChange (file :: files) st in
       Cards.profileImage st' = Cards.profileImage st
       ∧ Cards.profileImage (Cards.onloadend (length (Cards.readers st)) st') = VString url)
  ∧ (∀ st, Combined.handleImageChange [] st = st
           ∧ (Combined.profileImage st = VString [] →
              Combined.avatarSrc (Combined.handleImageChange [] st) = VString defaultImage))
  ∧ (∀ st file files url,
       readAsDataURL file = VString url →
       let st' := Combined.handleImageChange (file :: files) st in
       Combined.profileImage st' = Combined.profileImage st
       ∧ Combined.profileImage (Combined.onloadend (length (Combined.readers st)) st')
         = VString url).
Proof.
  split; [|split; [|split]].
  - intros st. split; [reflexivity|]. intros H.
    unfold Cards.avatarSrc, Cards.handleImageChange. cbn [head]. rewrite H. reflexivity.
  - intros st file files url Hurl st'. subst st'. split; [reflexivity|].
    unfold Cards.onloadend, Cards.handleImageChange. cbn [head Cards.readers].
    rewrite lookup_snoc_length. cbn [Cards.profileImage]. exact Hurl.
  - intros st. split; [reflexivity|]. intros H.
    unfold Combined.avatarSrc, Combined.handleImageChange. cbn [head]. rewrite H. reflexivity.
  - intros st file files url Hurl st'. subst st'. split; [reflexivity|].
    unfold Combined.onloadend, Combined.handleImageChange. cbn [head Combined.readers].
    rewrite lookup_snoc_length. cbn [Combined.profileImage]. exact Hurl.
Qed.

Lemma image_change_witness :
  Cards.avatarSrc (Cards.handleImageChange [] Cards.initial) = VString defaultImage
  ∧ Combined.profileImage
      (Combined.onloadend 0
         (Combined.handleImageChange [mkFile (VString (js "data:image/png;base64,AAAA"))]
            (Combined.onloadend 0
               (Combined.handleImageChange [mkFile (VString (js "data:image/gif;base64,R0lG"))]
                  Combined.initial))))
    = VString (js "data:image/png;base64,AAAA").
Proof.
  destruct image_change as (H1 & _ & _ & H4). split.
  - apply H1. reflexivity.
  - apply (H4 (Combined.onloadend 0
                 (Combined.handleImageChange
                    [mkFile (VString (js "data:image/gif;base64,R0lG"))] Combined.initial))
              (mkFile (VString (js "data:image/png;base64,AAAA"))) []).
    reflexivity.
Defined.

(** ** C9: the nickname indicator of the combined form *)

Lemma nicknameIcon_rendered st s :
  HookForm.error_of (HookForm.errors (Combined.form st)) (js "userNickname") = None →
  Combined.userNicknameValue st = VString s →
  Combined.nicknameIcon st
  = if 2 <=? length (trim s) then Combined.CheckCircle else Combined.no_icon.
Proof. intros He Hv. unfold Combined.nicknameIcon. rewrite He, Hv. reflexivity. Qed.

Lemma userNicknameValue_typed s st :
  Combined.userNicknameValue (Combined.typeNickname s st) = VString s.
Proof.
  unfold Combined.userNicknameValue, Combined.typeNickname, Combined.typeField,
    HookForm.watch, HookForm.onChange.
  cbn [Combined.form HookForm.fieldValues]. rewrite get_set. reflexivity.
Qed.

(** C9. In the combined form, whenever no message stands under the nickname
    field and the field holds [s], the indicator is the check mark exactly
    when the trimmed value has at least 2 units, and nothing otherwise; the
    pattern plays no part. Typing "a!b!" into the fresh form gives the check
    mark although a submit rejects it for the pattern. *)
Theorem nickname_indicator :
  (∀ st s,
     HookForm.error_of (HookForm.errors (Combined.form st)) (js "userNickname") = None →
     Combined.userNicknameValue st = VString s →
     (Combined.nicknameIcon st = Combined.CheckCircle ↔ 2 ≤ length (trim s))
     ∧ (Combined.nicknameIcon st = Combined.no_icon ↔ length (trim s) < 2))
  ∧ (∀ s, Combined.userNicknameValue (Combined.typeNickname s Combined.initial) = VString s
          ∧ HookForm.error_of
              (HookForm.errors (Combined.form (Combined.typeNickname s Combined.initial)))
              (js "userNickname") = None)
  ∧ Combined.nicknameIcon (Combined.typeNickname (js "a!b!") Combined.initial)
    = Combined.CheckCircle
  ∧ (∀ pw new conf,
       HookForm.shown (Combined.resolver (Combined.formValues (js "a!b!") pw new conf))
         (js "userNickname") = Some msg_name_pattern).
Proof.
  split; [|split; [|split]].
  - intros st s He Hv. rewrite (nicknameIcon_rendered st s He Hv).
    destruct (2 <=? length (trim s)) eqn:E.
    + apply Nat.leb_le in E. split; split; intros; try lia; try reflexivity; discriminate.
    + apply Nat.leb_gt in E. split; split; intros; try lia; try reflexivity; discriminate.
  - intros s. split; [apply userNicknameValue_typed | reflexivity].
  - vm_compute. reflexivity.
  - intros pw new conf. destruct (Combined_form_shown (js "a!b!") pw new conf) as [-> _].
    vm_compute. reflexivity.
Qed.

Lemma nickname_indicator_witness :
  Combined.nicknameIcon (Combined.typeNickname (js " 홍 ") Combined.initial) = Combined.no_icon.
Proof.
  destruct nickname_indicator as [H _].
  apply (H (Combined.typeNickname (js " 홍 ") Combined.initial) (js " 홍 ")).
  - reflexivity.
  - vm_compute. reflexivity.
  - vm_compute. lia.
Defined.

(** * Further properties of the forms *)

(** ** White space around a nickname *)

Lemma trimStart_blank pre s : blank pre → trimStart (pre ++ s) = trimStart s.
Proof.
  intros H. induction H as [|c pre Hc _ IH]; [reflexivity|].
  cbn [app trimStart]. rewrite Hc. exact IH.
Qed.

Lemma trimStart_nil s : trimStart s = [] → blank s.
Proof.
  induction s as [|c s IH]; [constructor|].
  cbn [trimStart]. destruct (isTrimmed c) eqn:E; [|discriminate].
  intros H. constructor; [exact E | apply IH, H].
Qed.

Lemma blank_trimStart s : blank s → trimStart s = [].
Proof. intros H. rewrite <- (app_nil_r s), trimStart_blank by exact H. reflexivity. Qed.

Lemma trimStart_app s post : trimStart s ≠ [] → trimStart (s ++ post) = trimStart s ++ post.
Proof.
  induction s as [|c s IH]; [intros H; contradiction|].
  cbn [app trimStart]. destruct (isTrimmed c); [exact IH | reflexivity].
Qed.

Lemma blank_reverse s : blank s → blank (reverse s).
Proof.
  unfold blank. rewrite !Forall_forall. intros H c Hc. apply H, elem_of_reverse, Hc.
Qed.

Lemma trimEnd_blank s post : blank post → trimEnd (s ++ post) = trimEnd s.
Proof.
  intros H. unfold trimEnd. rewrite reverse_app, trimStart_blank; [reflexivity|].
  apply blank_reverse, H.
Qed.

(** White space before and after does not change what [trim] returns. *)
Lemma trim_pad pre s post : blank pre → blank post → trim (pre ++ s ++ post) = trim s.
Proof.
  intros Hpre Hpost. unfold trim. rewrite trimStart_blank by exact Hpre.
  destruct (trimStart s) as [|c t] eqn:E.
  - rewrite blank_trimStart; [reflexivity|].
    apply Forall_app. split; [apply trimStart_nil, E | exact Hpost].
  - rewrite trimStart_app, E by (rewrite E; discriminate).
    apply trimEnd_blank, Hpost.
Qed.

(** X1. White space (and line terminators) before and after a nickname
    change neither the verdict, nor the messages, nor the submitted value, in
    the nickname card and in the combined form. *)
Theorem nickname_ignores_padding pre s post :
  blank pre → blank post →
  Cards.nicknameResolver (Cards.nicknameValues (pre ++ s ++ post))
  = Cards.nicknameResolver (Cards.nicknameValues s)
  ∧ (∀ pw new conf,
       Combined.resolver (Combined.formValues (pre ++ s ++ post) pw new conf)
       = Combined.resolver (Combined.formValues s pw new conf)).
Proof.
  intros Hpre Hpost. pose proof (trim_pad pre s post Hpre Hpost) as E.
  remember (pre ++ s ++ post) as padded eqn:Hp. clear Hp. split.
  - run_schema. rewrite E. reflexivity.
  - intros pw new conf. run_schema. rewrite E. reflexivity.
Qed.

Lemma nickname_ignores_padding_witness :
  Cards.nicknameResolver (Cards.nicknameValues (js "  " ++ js "홍길동" ++ js " "))
  = Cards.nicknameResolver (Cards.nicknameValues (js "홍길동")).
Proof.
  apply (nickname_ignores_padding (js "  ") (js "홍길동") (js " ")).
  - apply (bool_decide_unpack _). vm_compute. exact I.
  - apply (bool_decide_unpack _). vm_compute. exact I.
Defined.

(** ** What an accepted nickname looks like *)

Lemma nickname_unit_bounds c :
  nickname_unit c = true →
  (97 ≤ c ≤ 122 ∨ 65 ≤ c ≤ 90 ∨ 48 ≤ c ≤ 57 ∨ 44032 ≤ c ≤ 55203)%N.
Proof.
  change (nickname_unit c)
    with (in_ranges [(97, 122); (65, 90); (48, 57); (44032, 55203)]%N c).
  cbn [in_ranges existsb fst snd].
  rewrite !orb_true_iff, !andb_true_iff, !N.leb_le. intuition discriminate.
Qed.

Lemma nickname_unit_not_blank c : nickname_unit c = true → isTrimmed c = false.
Proof.
  intros H%nickname_unit_bounds.
  unfold isTrimmed, isWhiteSpace, isLineTerminator.
  repeat match goal with
    | |- (_ || _) = false => apply orb_false_intro
    | |- (_ =? _)%N = false => apply N.eqb_neq; lia
    end.
  apply andb_false_iff. rewrite !N.leb_gt. lia.
Qed.

Lemma Cards_nickname_inl s :
  nickname_rule s →
  Cards.nicknameResolver (Cards.nicknameValues s) = inl [(js "nickname", VString (trim s))].
Proof.
  intros (H1 & H2 & H3)%nickname_rule_tests. run_schema. rewrite H1, H2, H3. reflexivity.
Qed.

Lemma Cards_submitted_nickname s f :
  HookForm.submitted [js "nickname"] (HookForm.onChange (js "nickname") s f)
  = Cards.nicknameValues s.
Proof.
  unfold HookForm.submitted, Cards.nicknameValues. cbn [map]. repeat f_equal. read_field.
Qed.

(** X2. An accepted nickname reaches [onSubmitNickname] trimmed: the value
    logged is [trim s], it has at least 2 units, and none of its units is
    white space or a line terminator. *)
Theorem nickname_payload s :
  nickname_rule s →
  Cards.nicknameResolver (Cards.nicknameValues s) = inl [(js "nickname", VString (trim s))]
  ∧ (∀ st, snd (Cards.submitNickname (Cards.typeNickname s st))
           = Cards.onSubmitNickname [(js "nickname", VString (trim s))])
  ∧ 2 ≤ length (trim s)
  ∧ Forall (λ c, isTrimmed c = false) (trim s).
Proof.
  intros H. pose proof (Cards_nickname_inl s H) as E.
  split; [exact E|]. split; [|split].
  - intros st. unfold Cards.submitNickname, Cards.typeNickname.
    cbn [Cards.nicknameForm]. rewrite Cards_submitted_nickname, E. reflexivity.
  - apply H.
  - apply nickname_rule_units in H as (_ & H & _).
    eapply Forall_impl; [exact H|]. intros c. apply nickname_unit_not_blank.
Qed.

Lemma nickname_payload_witness :
  Cards.nicknameResolver (Cards.nicknameValues (js " 홍길동 "))
  = inl [(js "nickname", VString (trim (js " 홍길동 ")))].
Proof.
  apply (nickname_payload (js " 홍길동 ")).
  apply nickname_rule_tests. vm_compute. repeat split.
Defined.

(** ** The message under each field *)

Lemma nickname_message_tests (t : jsstring) :
  (if length t <? 1 then Some msg_name_required
   else if forallb nickname_unit t
        then if length t <? 2 then Some msg_name_min else None
        else Some msg_name_pattern)
  = nickname_message t.
Proof. unfold nickname_message. destruct t as [|a [|b t]]; reflexivity. Qed.

(** X3. The nickname field shows one message, chosen in the order of the
    checks: the "enter a name" message when the trimmed input is empty,
    otherwise the pattern message when some unit is outside the class,
    otherwise the length message when a single unit is left, otherwise none;
    in the combined form whatever the password fields hold. *)
Theorem nickname_field_messages s :
  HookForm.shown (Cards.nicknameResolver (Cards.nicknameValues s)) (js "nickname")
  = nickname_message (trim s)
  ∧ (∀ pw new conf,
       HookForm.shown (Combined.resolver (Combined.formValues s pw new conf))
         (js "userNickname")
       = nickname_message (trim s)).
Proof.
  split.
  - unfold Cards.nicknameResolver.
    rewrite shown_zodResolver by apply ZodObject_parse_valid.
    rewrite Cards_nickname_issues, (first_message_nickname (js "nickname") s).
    rewrite test_nickname_re. apply nickname_message_tests.
  - intros pw new conf. destruct (Combined_form_shown s pw new conf) as [-> _].
    rewrite test_nickname_re. apply nickname_message_tests.
Qed.

(** X4. In both password forms the message under a field depends on that
    field alone (for the confirmation, on the two fields compared): the
    length message under a current or new password shorter than 8 units, the
    repeat message under a new password of 8 units or more that fails the
    pattern, the mismatch message exactly when the confirmation differs. A
    short new password shows the length message also when it repeats. *)
Theorem password_messages :
  (∀ cur new conf,
     let r := Cards.passwordResolver (Cards.passwordValues cur new conf) in
     HookForm.shown r (js "currentPassword")
     = (if length cur <? 8 then Some msg_password_min else None)
     ∧ HookForm.shown r (js "newPassword")
       = (if length new <? 8 then Some msg_password_min
          else if RegExp.test repeat_re new then None else Some msg_password_repeat)
     ∧ HookForm.shown r (js "confirmPassword")
       = (if bool_decide (new = conf) then None else Some msg_password_mismatch))
  ∧ (∀ nick pw new conf,
       let r := Combined.resolver (Combined.formValues nick pw new conf) in
       HookForm.shown r (js "password")
       = (if length pw <? 8 then Some msg_password_min else None)
       ∧ HookForm.shown r (js "newPassword")
         = (if length new <? 8 then Some msg_password_min
            else if RegExp.test repeat_re new then None else Some msg_password_repeat)
       ∧ HookForm.shown r (js "confirmPassword")
         = (if bool_decide (new = conf) then None else Some msg_password_mismatch)).
Proof.
  split.
  - intros cur new conf. apply Cards_password_shown.
  - intros nick pw new conf r. subst r.
    destruct (Combined_form_shown nick pw new conf) as (_ & H). exact H.
Qed.

(** X5. The pattern of the new password, [/^(?!.*(.)\1\1).*$/], accepts a
    string exactly when it holds no line terminator (LF, CR, U+2028, U+2029)
    and no UTF-16 unit three times in a row; the empty string is accepted. *)
Theorem repeat_pattern_accepts p :
  (RegExp.test repeat_re p = true
   ↔ Forall (λ c, isLineTerminator c = false) p ∧ NoTripleRepeat p)
  ∧ RegExp.test repeat_re [] = true.
Proof. split; [apply repeat_check_iff | reflexivity]. Qed.

(** ** What a submit does *)

Section ParseStatus.
Import Zod.

Lemma merge_status_of a b : merge_status (status_of a) (status_of b) = status_of (a ++ b).
Proof. destruct a, b; reflexivity. Qed.

Lemma ZodObject_parse_status shape pth data st o :
  fst (ZodObject_parse shape pth data) = Parsed st o →
  st = status_of (snd (ZodObject_parse shape pth data)).
Proof.
  unfold ZodObject_parse. cbn [fst snd]. rewrite !map_map. cbn [fst snd].
  revert st o. induction shape as [|[k z] shape IH]; intros st o.
  - intros [= <- _]. reflexivity.
  - cbn [map mergeObjectSync concat fst snd].
    destruct (get data k) as [| |s]; cbn [ZodString_parse fst snd]; try discriminate.
    destruct (mergeObjectSync _) as [|st' o'] eqn:E; [discriminate|].
    intros [= <- _]. rewrite (IH _ _ eq_refl). apply merge_status_of.
Qed.

(** The status of a parse that went through is valid exactly when it added
    no issue. *)
Lemma ZodEffects_parse_status e pth data st o :
  fst (ZodEffects_parse e pth data) = Parsed st o →
  st = status_of (snd (ZodEffects_parse e pth data)).
Proof.
  unfold ZodEffects_parse.
  destruct (fst (ZodObject_parse _ _ _)) as [|st' v] eqn:E; cbn [fst snd]; [discriminate|].
  intros [= <- _]. rewrite (ZodObject_parse_status _ _ _ _ _ E). apply merge_status_of.
Qed.

Lemma parseErrorSchema_cons i issues :
  HookForm.parseErrorSchema (i :: issues) [] ≠ [].
Proof.
  intros H.
  pose proof (error_of_parseErrorSchema (i :: issues) [] (HookForm.join (path i))) as E.
  rewrite H in E. cbn [HookForm.error_of HookForm.first_message] in E.
  rewrite bool_decide_eq_true_2 in E by reflexivity. discriminate.
Qed.

(** A resolver over a refinement, once the value of the parse is known. *)
Lemma zodResolver_parsed e values st o :
  fst (ZodEffects_parse e [] values) = Parsed st o →
  HookForm.zodResolver (ZodEffects_parse e []) values
  = match snd (ZodEffects_parse e [] values) with
    | [] => inl o
    | issues => inr (HookForm.parseErrorSchema issues [])
    end.
Proof.
  intros E. unfold HookForm.zodResolver, safeParse. rewrite E.
  rewrite (ZodEffects_parse_status _ _ _ _ _ E).
  destruct (snd (ZodEffects_parse e [] values)); reflexivity.
Qed.

End ParseStatus.

Lemma Cards_password_parsed cur new conf :
  ∃ st, fst (Zod.ZodEffects_parse Cards.passwordSchema [] (Cards.passwordValues cur new conf))
        = Zod.Parsed st (Cards.passwordValues cur new conf).
Proof.
  set (zc := Zod.z_string .> Zod.z_min 8 msg_password_min).
  set (zn := Zod.z_string .> Zod.z_min 8 msg_password_min
               .> Zod.z_regex repeat_re msg_password_repeat).
  eexists. transitivity
    (Zod.Parsed
       (Zod.merge_status
          (Zod.merge_status
             (Zod.status_of (snd (Zod.run_checks zc [js "currentPassword"] cur)))
             (Zod.merge_status
                (Zod.status_of (snd (Zod.run_checks zn [js "newPassword"] new)))
                (Zod.merge_status
                   (Zod.status_of
                      (snd (Zod.run_checks Zod.z_string [js "confirmPassword"] conf)))
                   Zod.valid)))
          (Zod.status_of
             (mismatch_issue (fst (Zod.run_checks zn [js "newPassword"] new))
                (fst (Zod.run_checks Zod.z_string [js "confirmPassword"] conf)))))
       [(js "currentPassword", VString (fst (Zod.run_checks zc [js "currentPassword"] cur)));
        (js "newPassword", VString (fst (Zod.run_checks zn [js "newPassword"] new)));
        (js "confirmPassword",
         VString (fst (Zod.run_checks Zod.z_string [js "confirmPassword"] conf)))]);
    [reflexivity|].
  subst zc zn. rewrite !run_checks_data. reflexivity.
Qed.

Lemma Combined_form_parsed nick pw new conf :
  ∃ st, fst (Zod.ZodEffects_parse Combined.formSchema []
               (Combined.formValues nick pw new conf))
        = Zod.Parsed st (Combined.formValues (trim nick) pw new conf).
Proof.
  set (zu := Zod.z_string .> Zod.z_trim .> Zod.z_nonempty msg_name_required
               .> Zod.z_regex nickname_re msg_name_pattern .> Zod.z_min 2 msg_name_min).
  set (zc := Zod.z_string .> Zod.z_min 8 msg_password_min).
  set (zn := Zod.z_string .> Zod.z_min 8 msg_password_min
               .> Zod.z_regex repeat_re msg_password_repeat).
  eexists. transitivity
    (Zod.Parsed
       (Zod.merge_status
          (Zod.merge_status
             (Zod.status_of (snd (Zod.run_checks zu [js "userNickname"] nick)))
             (Zod.merge_status
                (Zod.status_of (snd (Zod.run_checks zc [js "password"] pw)))
                (Zod.merge_status
                   (Zod.status_of (snd (Zod.run_checks zn [js "newPassword"] new)))
                   (Zod.merge_status
                      (Zod.status_of
                         (snd (Zod.run_checks Zod.z_string [js "confirmPassword"] conf)))
                      Zod.valid))))
          (Zod.status_of
             (mismatch_issue (fst (Zod.run_checks zn [js "newPassword"] new))
                (fst (Zod.run_checks Zod.z_string [js "confirmPassword"] conf)))))
       [(js "userNickname", VString (fst (Zod.run_checks zu [js "userNickname"] nick)));
        (js "password", VString (fst (Zod.run_checks zc [js "password"] pw)));
        (js "newPassword", VString (fst (Zod.run_checks zn [js "newPassword"] new)));
        (js "confirmPassword",
         VString (fst (Zod.run_checks Zod.z_string [js "confirmPassword"] conf)))]);
    [reflexivity|].
  subst zu zc zn. rewrite !run_checks_data. reflexivity.
Qed.

Section NoIssue.
Import Zod.
Variable k : jsstring.

Lemma issues_min8_nil s :
  snd (run_checks (z_string .> z_min 8 msg_password_min) [k] s) = [] ↔ 8 ≤ length s.
Proof.
  unfold z_min, z_string. cbn [app run_checks]. rewrite <- Nat.ltb_ge.
  destruct (length s <? 8); cbn [snd]; split; intros; congruence.
Qed.

Lemma issues_new_nil s :
  snd (run_checks (z_string .> z_min 8 msg_password_min
                     .> z_regex repeat_re msg_password_repeat) [k] s) = []
  ↔ 8 ≤ length s ∧ RegExp.test repeat_re s = true.
Proof.
  unfold z_regex, z_min, z_string. cbn [app run_checks]. rewrite <- Nat.ltb_ge.
  destruct (length s <? 8), (RegExp.test repeat_re s); cbn [snd]; split;
    intros; intuition congruence.
Qed.

Lemma issues_nickname_nil s :
  snd (run_checks (z_string .> z_trim .> z_nonempty msg_name_required
                     .> z_regex nickname_re msg_name_pattern
                     .> z_min 2 msg_name_min) [k] s) = []
  ↔ nickname_rule s.
Proof.
  rewrite nickname_rule_tests.
  unfold z_regex, z_nonempty, z_min, z_trim, z_string. cbn [app run_checks].
  destruct (length (trim s) <? 1), (RegExp.test nickname_re (trim s)),
    (length (trim s) <? 2); cbn [snd]; split; intros; intuition congruence.
Qed.

End NoIssue.

Lemma Cards_password_no_issue cur new conf :
  snd (Zod.ZodEffects_parse Cards.passwordSchema [] (Cards.passwordValues cur new conf)) = []
  ↔ password_rules cur new conf.
Proof.
  rewrite Cards_password_issues, !app_nil.
  rewrite (issues_min8_nil (js "currentPassword") cur).
  rewrite (issues_new_nil (js "newPassword") new), mismatch_issue_nil.
  unfold password_rules. tauto.
Qed.

Lemma Combined_form_no_issue nick pw new conf :
  snd (Zod.ZodEffects_parse Combined.formSchema [] (Combined.formValues nick pw new conf))
  = []
  ↔ form_rules nick pw new conf.
Proof.
  rewrite Combined_form_issues, !app_nil.
  rewrite (issues_nickname_nil (js "userNickname") nick).
  rewrite (issues_min8_nil (js "password") pw).
  rewrite (issues_new_nil (js "newPassword") new), mismatch_issue_nil.
  unfold form_rules, password_rules. tauto.
Qed.

Lemma Cards_password_resolved cur new conf :
  (password_rules cur new conf →
   Cards.passwordResolver (Cards.passwordValues cur new conf)
   = inl (Cards.passwordValues cur new conf))
  ∧ (¬ password_rules cur new conf →
     ∃ errs, errs ≠ []
       ∧ Cards.passwordResolver (Cards.passwordValues cur new conf) = inr errs).
Proof.
  destruct (Cards_password_parsed cur new conf) as [st E].
  unfold Cards.passwordResolver. rewrite (zodResolver_parsed _ _ _ _ E).
  rewrite <- Cards_password_no_issue.
  destruct (snd (Zod.ZodEffects_parse _ _ _)) as [|i issues]; split; intros H;
    try reflexivity; try congruence.
  exists (HookForm.parseErrorSchema (i :: issues) []).
  split; [apply parseErrorSchema_cons | reflexivity].
Qed.

Lemma Combined_form_resolved nick pw new conf :
  (form_rules nick pw new conf →
   Combined.resolver (Combined.formValues nick pw new conf)
   = inl (Combined.formValues (trim nick) pw new conf))
  ∧ (¬ form_rules nick pw new conf →
     ∃ errs, errs ≠ []
       ∧ Combined.resolver (Combined.formValues nick pw new conf) = inr errs).
Proof.
  destruct (Combined_form_parsed nick pw new conf) as [st E].
  unfold Combined.resolver. rewrite (zodResolver_parsed _ _ _ _ E).
  rewrite <- Combined_form_no_issue.
  destruct (snd (Zod.ZodEffects_parse _ _ _)) as [|i issues]; split; intros H;
    try reflexivity; try congruence.
  exists (HookForm.parseErrorSchema (i :: issues) []).
  split; [apply parseErrorSchema_cons | reflexivity].
Qed.

(** X6. The password card calls [onSubmitPassword] exactly when the current
    and the new password have 8 units or more, the new password passes the
    repeat pattern and the confirmation equals it; it then logs the three
    strings as typed (nothing is trimmed), shows one toast and leaves no
    message. Otherwise nothing is logged or shown and some message is set. *)
Theorem password_submit_gate st cur new conf :
  let st' := Cards.typePassword (js "confirmPassword") conf
               (Cards.typePassword (js "newPassword") new
                  (Cards.typePassword (js "currentPassword") cur st)) in
  (password_rules cur new conf →
   snd (Cards.submitPassword st') = Cards.onSubmitPassword (Cards.passwordValues cur new conf)
   ∧ HookForm.errors (Cards.passwordForm (fst (Cards.submitPassword st'))) = [])
  ∧ (¬ password_rules cur new conf →
     snd (Cards.submitPassword st') = []
     ∧ HookForm.errors (Cards.passwordForm (fst (Cards.submitPassword st'))) ≠ []).
Proof.
  cbn zeta. unfold Cards.submitPassword, Cards.typePassword.
  cbn [Cards.passwordForm]. rewrite Cards_submitted_typed.
  destruct (Cards_password_resolved cur new conf) as [Hok Hno]. split; intros H.
  - rewrite (Hok H). split; reflexivity.
  - destruct (Hno H) as (errs & Hne & ->). split; [reflexivity | exact Hne].
Qed.

Lemma password_submit_gate_witness :
  snd (Cards.submitPassword
         (Cards.typePassword (js "confirmPassword") (js " pass word ")
            (Cards.typePassword (js "newPassword") (js " pass word ")
               (Cards.typePassword (js "currentPassword") (js "12345678") Cards.initial))))
  = Cards.onSubmitPassword
      (Cards.passwordValues (js "12345678") (js " pass word ") (js " pass word ")).
Proof.
  apply (password_submit_gate Cards.initial (js "12345678") (js " pass word ")
           (js " pass word ")).
  unfold password_rules. vm_compute. repeat split; lia.
Defined.

(** X7. The combined form calls [onSubmit] exactly when the nickname rule and
    the three password rules hold; it then logs the image draft, the trimmed
    nickname, the passwords as typed and the current selection, and leaves no
    message. Otherwise nothing is logged and some message is set. *)
Theorem form_submit_gate st nick pw new conf :
  let st' := Combined.typeField (js "confirmPassword") conf
               (Combined.typeField (js "newPassword") new
                  (Combined.typeField (js "password") pw
                     (Combined.typeNickname nick st))) in
  (form_rules nick pw new conf →
   snd (Combined.submit st')
   = [console_log (js "프로필 수정 성공 : ")
        ((js "profileImage", Combined.profileImage st)
           :: Combined.formValues (trim nick) pw new conf);
      console_log_list (js "선택된 카테고리:") (Combined.categories st)]
   ∧ HookForm.errors (Combined.form (fst (Combined.submit st'))) = [])
  ∧ (¬ form_rules nick pw new conf →
     snd (Combined.submit st') = []
     ∧ HookForm.errors (Combined.form (fst (Combined.submit st'))) ≠ []).
Proof.
  cbn zeta. unfold Combined.submit, Combined.typeNickname, Combined.typeField.
  cbn [Combined.form]. rewrite Combined_submitted_typed.
  destruct (Combined_form_resolved nick pw new conf) as [Hok Hno]. split; intros H.
  - rewrite (Hok H). split; reflexivity.
  - destruct (Hno H) as (errs & Hne & ->). split; [reflexivity | exact Hne].
Qed.

Lemma form_submit_gate_witness :
  snd (Combined.submit
         (Combined.typeField (js "confirmPassword") (js "password1")
            (Combined.typeField (js "newPassword") (js "password2")
               (Combined.typeField (js "password") (js "password0")
                  (Combined.typeNickname (js "홍길동") Combined.initial)))))
  = [].
Proof.
  apply (form_submit_gate Combined.initial (js "홍길동") (js "password0") (js "password2")
           (js "password1")).
  unfold form_rules, password_rules. intros (_ & _ & _ & _ & H).
  revert H. vm_compute. discriminate.
Defined.

(** ** A rejected submit always shows a message *)

Section Rejected.
Import Zod.

Lemma ZodString_parse_paths z pth input :
  Forall (λ i, path i = pth) (snd (ZodString_parse z pth input)).
Proof.
  destruct input; cbn [ZodString_parse snd];
    [repeat constructor | repeat constructor | apply run_checks_paths].
Qed.

Lemma ZodObject_parse_paths shape data :
  Forall (λ i, ∃ k, k ∈ map fst shape ∧ path i = [k]) (snd (ZodObject_parse shape [] data)).
Proof.
  unfold ZodObject_parse. cbn [snd]. rewrite map_map. cbn [fst snd app].
  induction shape as [|[k z] shape IH]; cbn [map concat fst snd]; [constructor|].
  apply Forall_app. split.
  - eapply Forall_impl; [apply ZodString_parse_paths|].
    intros i Hi. exists k. split; [left | exact Hi].
  - eapply Forall_impl; [exact IH|].
    intros i (k' & Hk' & Hi). exists k'. split; [right; exact Hk' | exact Hi].
Qed.

Lemma ZodString_parse_no_issue z pth input :
  snd (ZodString_parse z pth input) = [] → ∃ v, fst (ZodString_parse z pth input) = Parsed valid v.
Proof.
  destruct input; cbn [ZodString_parse fst snd]; try discriminate.
  intros ->. eexists. reflexivity.
Qed.

Lemma ZodObject_parse_no_issue shape pth data :
  snd (ZodObject_parse shape pth data) = [] →
  ∃ o, fst (ZodObject_parse shape pth data) = Parsed valid o.
Proof.
  unfold ZodObject_parse. cbn [fst snd]. rewrite !map_map. cbn [fst snd].
  induction shape as [|[k z] shape IH]; cbn [map mergeObjectSync concat fst snd].
  - intros _. eexists. reflexivity.
  - intros [H1 H2]%app_nil. destruct (ZodString_parse_no_issue _ _ _ H1) as [v ->].
    destruct (IH H2) as [o ->]. eexists. reflexivity.
Qed.

Lemma ZodEffects_parse_no_issue e pth data :
  snd (ZodEffects_parse e pth data) = [] →
  ∃ o, fst (ZodEffects_parse e pth data) = Parsed valid o.
Proof.
  unfold ZodEffects_parse.
  destruct (fst (ZodObject_parse _ _ _)) as [|st v] eqn:E; cbn [fst snd].
  - intros H. destruct (ZodObject_parse_no_issue _ _ _ H) as [o Ho]. congruence.
  - intros [H1 H2]%app_nil. destruct (ZodObject_parse_no_issue _ _ _ H1) as [o Ho].
    rewrite H2. rewrite Ho in E. injection E as <- <-. eexists. reflexivity.
Qed.

Lemma rejected_has_issue {A} (parse : obj → ParseReturn A) values :
  (snd (parse values) = [] → ∃ v, fst (parse values) = Parsed valid v) →
  HookForm.accepted (HookForm.zodResolver parse values) = false →
  ∃ i issues, snd (parse values) = i :: issues.
Proof.
  intros Hnil. unfold HookForm.accepted, HookForm.zodResolver, safeParse.
  destruct (snd (parse values)) as [|i issues]; [|eauto].
  destruct (Hnil eq_refl) as [v ->]. discriminate.
Qed.

Lemma first_message_head i issues :
  HookForm.first_message (i :: issues) (HookForm.join (path i)) = Some (message i).
Proof. cbn [HookForm.first_message]. rewrite bool_decide_eq_true_2 by reflexivity. reflexivity. Qed.

(** A rejected object shows a message under a field of its shape. *)
Lemma rejected_object shape values :
  HookForm.accepted (HookForm.zodResolver (ZodObject_parse shape []) values) = false →
  ∃ k, k ∈ map fst shape
       ∧ HookForm.shown (HookForm.zodResolver (ZodObject_parse shape []) values) k ≠ None.
Proof.
  intros H. apply rejected_has_issue in H as (i & issues & E);
    [|apply ZodObject_parse_no_issue].
  pose proof (ZodObject_parse_paths shape values) as Hp. rewrite E in Hp.
  apply Forall_cons in Hp as [(k & Hk & Hi) _].
  exists k. split; [exact Hk|].
  rewrite shown_zodResolver by apply ZodObject_parse_valid.
  rewrite E. change k with (HookForm.join [k]). rewrite <- Hi, first_message_head.
  discriminate.
Qed.

(** A rejected refinement shows a message under a field of the shape or at
    the path of the refinement. *)
Lemma rejected_effects e values :
  HookForm.accepted (HookForm.zodResolver (ZodEffects_parse e []) values) = false →
  ∃ k, (k ∈ map fst (schema e) ∨ k = HookForm.join (refine_path e))
       ∧ HookForm.shown (HookForm.zodResolver (ZodEffects_parse e []) values) k ≠ None.
Proof.
  intros H. apply rejected_has_issue in H as (i & issues & E);
    [|apply ZodEffects_parse_no_issue].
  exists (HookForm.join (path i)). split.
  - revert E. unfold ZodEffects_parse.
    pose proof (ZodObject_parse_paths (schema e) values) as Hp.
    destruct (fst (ZodObject_parse _ _ _)) as [|st v]; cbn [fst snd]; intros E.
    + rewrite E in Hp. apply Forall_cons in Hp as [(k & Hk & ->) _]. left. exact Hk.
    + destruct (snd (ZodObject_parse (schema e) [] values)) as [|i0 inner].
      * cbn [app] in E. unfold executeRefinement in E.
        destruct (check e v); [discriminate|]. injection E as <- _. right. reflexivity.
      * cbn [app] in E. injection E as -> _.
        apply Forall_cons in Hp as [(k & Hk & ->) _]. left. exact Hk.
  - rewrite shown_zodResolver by apply ZodEffects_parse_valid.
    rewrite E, first_message_head. discriminate.
Qed.

End Rejected.

(** X8. Whatever object reaches a resolver, fields missing or null
    included, a rejection is never silent: some field of the form that was
    submitted shows a message. *)
Theorem rejection_shows_message (values : Zod.obj) :
  (HookForm.accepted (Cards.nicknameResolver values) = false →
   HookForm.shown (Cards.nicknameResolver values) (js "nickname") ≠ None)
  ∧ (HookForm.accepted (Cards.passwordResolver values) = false →
     ∃ k, k ∈ [js "currentPassword"; js "newPassword"; js "confirmPassword"]
          ∧ HookForm.shown (Cards.passwordResolver values) k ≠ None)
  ∧ (HookForm.accepted (Combined.resolver values) = false →
     ∃ k, k ∈ Combined.fieldNames ∧ HookForm.shown (Combined.resolver values) k ≠ None).
Proof.
  split; [|split].
  - intros H. apply rejected_object in H as (k & Hk & H).
    replace (map fst Cards.nicknameSchema) with [js "nickname"] in Hk
      by (vm_compute; reflexivity).
    apply list_elem_of_singleton in Hk. subst k. exact H.
  - intros H. apply rejected_effects in H as (k & Hk & H). exists k. split; [|exact H].
    replace (map fst (Zod.schema Cards.passwordSchema))
      with [js "currentPassword"; js "newPassword"; js "confirmPassword"] in Hk
      by (vm_compute; reflexivity).
    replace (HookForm.join (Zod.refine_path Cards.passwordSchema))
      with (js "confirmPassword") in Hk by (vm_compute; reflexivity).
    destruct Hk as [Hk| ->]; [exact Hk|]. do 2 apply list_elem_of_further.
    apply list_elem_of_here.
  - intros H. apply rejected_effects in H as (k & Hk & H). exists k. split; [|exact H].
    replace (map fst (Zod.schema Combined.formSchema)) with Combined.fieldNames in Hk
      by (vm_compute; reflexivity).
    replace (HookForm.join (Zod.refine_path Combined.formSchema))
      with (js "confirmPassword") in Hk by (vm_compute; reflexivity).
    destruct Hk as [Hk| ->]; [exact Hk|]. do 3 apply list_elem_of_further.
    apply list_elem_of_here.
Qed.

Lemma rejection_shows_message_witness :
  HookForm.shown (Cards.nicknameResolver []) (js "nickname") ≠ None
  ∧ ∃ k, k ∈ Combined.fieldNames
         ∧ HookForm.shown
             (Combined.resolver [(js "userNickname", VNull); (js "password", VString [])]) k
           ≠ None.
Proof.
  split.
  - destruct (rejection_shows_message []) as (H & _). apply H. vm_compute. reflexivity.
  - destruct (rejection_shows_message
                [(js "userNickname", VNull); (js "password", VString [])]) as (_ & _ & H).
    apply H. vm_compute. reflexivity.
Defined.

(** ** More on the category toggle *)

(** X9. A toggle flips the membership of its label and of no other label;
    so the checkbox of the label clicked changes its checked state and every
    other checkbox keeps its own. *)
Theorem toggle_flips (c : jsstring) (sel : list jsstring) :
  (c ∈ Cards.toggle c sel ↔ c ∉ sel)
  ∧ (∀ x, x ≠ c → (x ∈ Cards.toggle c sel ↔ x ∈ sel))
  ∧ (∀ st, Combined.checked (Combined.toggleCategory c st) c = negb (Combined.checked st c))
  ∧ (∀ st x, x ≠ c →
       Combined.checked (Combined.toggleCategory c st) x = Combined.checked st x).
Proof.
  assert (c ∈ Cards.toggle c sel ↔ c ∉ sel) as H1 by (rewrite toggle_elem; tauto).
  assert (∀ l x, x ≠ c → (x ∈ Cards.toggle c l ↔ x ∈ l)) as H2
    by (intros l x Hx; rewrite toggle_elem; tauto).
  split; [exact H1|]. split; [apply H2|]. split.
  - intros st. unfold Combined.checked, Combined.toggleCategory, Combined.setCategories.
    cbn [Combined.categories]. rewrite Combined_toggle.
    destruct (decide (c ∈ Combined.categories st)) as [Hc|Hc].
    + rewrite (bool_decide_eq_true_2 _ Hc). apply bool_decide_eq_false_2.
      rewrite toggle_elem. tauto.
    + rewrite (bool_decide_eq_false_2 _ Hc). apply bool_decide_eq_true_2.
      rewrite toggle_elem. tauto.
  - intros st x Hx. unfold Combined.checked, Combined.toggleCategory, Combined.setCategories.
    cbn [Combined.categories]. rewrite Combined_toggle.
    apply bool_decide_ext, H2, Hx.
Qed.

Lemma toggle_flips_witness :
  js "야구" ∈ Cards.toggle (js "축구") [js "야구"].
Proof.
  apply (toggle_flips (js "축구") [js "야구"]).
  - vm_compute. discriminate.
  - apply list_elem_of_here.
Defined.

(** X10. Toggles of two labels commute on the set of selected labels: the
    order of two clicks does not matter for what is selected. *)
Theorem toggle_commutes (a b : jsstring) (sel : list jsstring) :
  list_to_set (Cards.toggle a (Cards.toggle b sel))
  =@{gset jsstring} list_to_set (Cards.toggle b (Cards.toggle a sel)).
Proof.
  apply set_eq. intros x. rewrite !elem_of_list_to_set, !toggle_elem.
  destruct (decide (x = a)) as [Ha|Ha], (decide (x = b)) as [Hb|Hb],
    (decide (a ∈ sel)), (decide (b ∈ sel)); subst; tauto.
Qed.

Lemma filter_absent (c : jsstring) (sel : list jsstring) :
  c ∉ sel → filter (λ x, x ≠ c) sel = sel.
Proof.
  induction sel as [|x sel IH]; [reflexivity|]. intros H.
  apply not_elem_of_cons in H as [Hx Hc].
  rewrite filter_cons_True by congruence. rewrite IH by exact Hc. reflexivity.
Qed.

Lemma filter_present_length (c : jsstring) (sel : list jsstring) :
  NoDup sel → c ∈ sel → S (length (filter (λ x, x ≠ c) sel)) = length sel.
Proof.
  induction 1 as [|x sel Hx Hnd IH]; [intros H; inversion H|].
  intros [->|Hc]%elem_of_cons.
  - rewrite filter_cons_False by tauto. rewrite filter_absent by exact Hx. reflexivity.
  - rewrite filter_cons_True by (intros ->; contradiction).
    cbn [length]. rewrite IH by exact Hc. reflexivity.
Qed.

(** X11. On a selection without duplicates a toggle changes the number of
    selected labels by exactly one: one more for an absent label, one less
    for a present one. *)
Theorem toggle_length (c : jsstring) (sel : list jsstring) :
  NoDup sel →
  (c ∉ sel → length (Cards.toggle c sel) = S (length sel))
  ∧ (c ∈ sel → S (length (Cards.toggle c sel)) = length sel).
Proof.
  intros Hnd. unfold Cards.toggle. split; intros Hc.
  - rewrite bool_decide_eq_false_2 by exact Hc. rewrite length_app. cbn. lia.
  - rewrite bool_decide_eq_true_2 by exact Hc. apply filter_present_length; assumption.
Qed.

Lemma toggle_length_witness :
  S (length (Cards.toggle (js "농구") [js "축구"; js "농구"])) = 2.
Proof.
  apply (toggle_length (js "농구") [js "축구"; js "농구"]).
  - apply (bool_decide_unpack _). vm_compute. exact I.
  - apply (bool_decide_unpack _). vm_compute. exact I.
Defined.

(** X12. A toggle keeps the other labels in their order; checking a label
    and unchecking it again gives back the very same list, while unchecking
    a selected label and checking it again moves it to the end. *)
Theorem toggle_keeps_order (c : jsstring) (sel : list jsstring) :
  filter (λ x, x ≠ c) (Cards.toggle c sel) = filter (λ x, x ≠ c) sel
  ∧ (c ∉ sel → Cards.toggle c (Cards.toggle c sel) = sel)
  ∧ (c ∈ sel → Cards.toggle c (Cards.toggle c sel) = filter (λ x, x ≠ c) sel ++ [c]).
Proof.
  assert (c ∉ filter (λ x, x ≠ c) sel) as Hf
    by (rewrite list_elem_of_filter; tauto).
  split; [|split].
  - unfold Cards.toggle. case_bool_decide as Hc.
    + apply filter_absent, Hf.
    + rewrite filter_app, filter_cons_False, filter_nil by tauto. apply app_nil_r.
  - intros Hc. unfold Cards.toggle at 2. rewrite bool_decide_eq_false_2 by exact Hc.
    unfold Cards.toggle. rewrite bool_decide_eq_true_2
      by (apply elem_of_app; right; apply list_elem_of_here).
    rewrite filter_app, filter_cons_False, filter_nil by tauto.
    rewrite filter_absent by exact Hc. apply app_nil_r.
  - intros Hc. unfold Cards.toggle at 2. rewrite bool_decide_eq_true_2 by exact Hc.
    unfold Cards.toggle. rewrite bool_decide_eq_false_2 by exact Hf. reflexivity.
Qed.

Lemma toggle_keeps_order_witness :
  Cards.toggle (js "축구") (Cards.toggle (js "축구") [js "야구"; js "농구"])
  = [js "야구"; js "농구"].
Proof.
  apply (toggle_keeps_order (js "축구") [js "야구"; js "농구"]).
  apply (bool_decide_unpack _). vm_compute. exact I.
Defined.

Lemma toggle_keeps_NoDup (c : jsstring) (sel : list jsstring) :
  NoDup sel → NoDup (Cards.toggle c sel).
Proof.
  intros Hnd. unfold Cards.toggle. case_bool_decide as Hc.
  - apply NoDup_filter, Hnd.
  - apply NoDup_app. split; [exact Hnd|]. split; [|apply NoDup_singleton].
    intros x Hx ->%list_elem_of_singleton. contradiction.
Qed.

Lemma toggles_keep_NoDup (picks sel : list jsstring) :
  NoDup sel → NoDup (foldl (λ l c, Cards.toggle c l) sel picks).
Proof.
  revert sel. induction picks as [|c picks IH]; intros sel H; [exact H|].
  cbn [foldl]. apply IH, toggle_keeps_NoDup, H.
Qed.

Lemma NoDup_within_length (options sel : list jsstring) :
  NoDup sel → Forall (λ x, x ∈ options) sel → length sel ≤ length options.
Proof.
  intros Hnd Hin. apply submseteq_length, NoDup_submseteq; [exact Hnd|].
  rewrite Forall_forall in Hin. exact Hin.
Qed.

(** X13. From the empty selection, whatever offered labels are clicked and
    however often, the selection never holds a label twice and never more
    than the 7 offered labels; in both views. *)
Theorem selection_bounded (picks : list jsstring) :
  (Forall (λ c, c ∈ Cards.categoryOptions) picks →
   let sel := Cards.categories
                (foldl (λ st c, Cards.toggleCategory c st) Cards.initial picks) in
   NoDup sel ∧ length sel ≤ 7)
  ∧ (Forall (λ c, c ∈ Combined.categoryOptions) picks →
     let sel := Combined.categories
                  (foldl (λ st c, Combined.toggleCategory c st) Combined.initial picks) in
     NoDup sel ∧ length sel ≤ 7).
Proof.
  split; intros Hp sel; subst sel.
  - rewrite Cards_toggles.
    assert (NoDup (foldl (λ l c, Cards.toggle c l) (Cards.categories Cards.initial) picks))
      as Hnd by (apply toggles_keep_NoDup; constructor).
    split; [exact Hnd|].
    apply (NoDup_within_length Cards.categoryOptions); [exact Hnd|].
    apply toggles_within; [exact Hp | constructor].
  - rewrite Combined_toggles.
    assert (NoDup (foldl (λ l c, Cards.toggle c l)
                     (Combined.categories Combined.initial) picks))
      as Hnd by (apply toggles_keep_NoDup; constructor).
    split; [exact Hnd|].
    apply (NoDup_within_length Combined.categoryOptions); [exact Hnd|].
    apply toggles_within; [exact Hp | constructor].
Qed.

Lemma selection_bounded_witness :
  NoDup (Combined.categories
           (foldl (λ st c, Combined.toggleCategory c st) Combined.initial
              [js "축구"; js "런닝"; js "축구"; js "축구"])).
Proof.
  destruct (selection_bounded [js "축구"; js "런닝"; js "축구"; js "축구"]) as [_ H].
  apply H. apply (bool_decide_unpack _). vm_compute. exact I.
Defined.

(** ** More on the image draft *)

Lemma two_readers_first {A} (l : list A) (x y : A) :
  ((l ++ [x]) ++ [y]) !! length l = Some x ∧ delete (length l) ((l ++ [x]) ++ [y]) = l ++ [y].
Proof.
  rewrite <- app_assoc. cbn [app]. split; [apply list_lookup_middle; reflexivity|].
  apply delete_middle.
Qed.

Lemma two_readers_second {A} (l : list A) (x y : A) :
  ((l ++ [x]) ++ [y]) !! S (length l) = Some y
  ∧ delete (S (length l)) ((l ++ [x]) ++ [y]) = l ++ [x].
Proof.
  replace (S (length l)) with (length (l ++ [x])) by (rewrite length_app; cbn; lia).
  split; [apply lookup_snoc_length|]. rewrite delete_middle. apply app_nil_r.
Qed.

Lemma delete_snoc_length {A} (l : list A) (x : A) : delete (length l) (l ++ [x]) = l.
Proof. rewrite delete_middle. apply app_nil_r. Qed.

(** X14. When two files are picked one after the other, the preview ends
    up as the file whose read ended last, in either order of the two ends,
    and no reader of the two is left pending; in both views. *)
Theorem image_last_end_wins :
  (∀ st f1 f2,
     let n := length (Cards.readers st) in
     let st2 := Cards.handleImageChange [f2] (Cards.handleImageChange [f1] st) in
     Cards.profileImage (Cards.onloadend n (Cards.onloadend n st2)) = readAsDataURL f2
     ∧ Cards.profileImage (Cards.onloadend n (Cards.onloadend (S n) st2)) = readAsDataURL f1
     ∧ Cards.readers (Cards.onloadend n (Cards.onloadend n st2)) = Cards.readers st
     ∧ Cards.readers (Cards.onloadend n (Cards.onloadend (S n) st2)) = Cards.readers st)
  ∧ (∀ st f1 f2,
       let n := length (Combined.readers st) in
       let st2 := Combined.handleImageChange [f2] (Combined.handleImageChange [f1] st) in
       Combined.profileImage (Combined.onloadend n (Combined.onloadend n st2))
       = readAsDataURL f2
       ∧ Combined.profileImage (Combined.onloadend n (Combined.onloadend (S n) st2))
         = readAsDataURL f1
       ∧ Combined.readers (Combined.onloadend n (Combined.onloadend n st2))
         = Combined.readers st
       ∧ Combined.readers (Combined.onloadend n (Combined.onloadend (S n) st2))
         = Combined.readers st).
Proof.
  split; intros st f1 f2 n st2; subst n st2.
  - unfold Cards.onloadend, Cards.handleImageChange. cbn [head Cards.readers].
    destruct (two_readers_first (Cards.readers st) f1 f2) as [-> ->].
    destruct (two_readers_second (Cards.readers st) f1 f2) as [-> ->].
    cbn [Cards.readers]. rewrite !lookup_snoc_length. cbn [Cards.profileImage Cards.readers].
    rewrite !delete_snoc_length. repeat split.
  - unfold Combined.onloadend, Combined.handleImageChange. cbn [head Combined.readers].
    destruct (two_readers_first (Combined.readers st) f1 f2) as [-> ->].
    destruct (two_readers_second (Combined.readers st) f1 f2) as [-> ->].
    cbn [Combined.readers]. rewrite !lookup_snoc_length.
    cbn [Combined.profileImage Combined.readers].
    rewrite !delete_snoc_length. repeat split.
Qed.

Lemma truthy_default : truthy (VString defaultImage) = true.
Proof. vm_compute. reflexivity. Qed.

Lemma or_else_default v : truthy (or_else v (VString defaultImage)) = true.
Proof. unfold or_else. destruct (truthy v) eqn:E; [exact E | apply truthy_default]. Qed.

(** X15. The avatar always has a source: in every state of the two edit
    views its [src] is a non-empty string; and when a read fails (the reader
    ends with null) the preview falls back to the default placeholder. *)
Theorem avatar_always_has_source :
  (∀ st, truthy (Cards.avatarSrc st) = true)
  ∧ (∀ st, truthy (Combined.avatarSrc st) = true)
  ∧ (∀ st i file,
       Cards.readers st !! i = Some file → readAsDataURL file = VNull →
       Cards.avatarSrc (Cards.onloadend i st) = VString defaultImage)
  ∧ (∀ st i file,
       Combined.readers st !! i = Some file → readAsDataURL file = VNull →
       Combined.avatarSrc (Combined.onloadend i st) = VString defaultImage).
Proof.
  split; [intros st; apply or_else_default|].
  split; [intros st; apply or_else_default|]. split.
  - intros st i file Hi Hnull. unfold Cards.avatarSrc, Cards.onloadend.
    rewrite Hi. cbn [Cards.profileImage]. rewrite Hnull. reflexivity.
  - intros st i file Hi Hnull. unfold Combined.avatarSrc, Combined.onloadend.
    rewrite Hi. cbn [Combined.profileImage]. rewrite Hnull. reflexivity.
Qed.

Lemma avatar_always_has_source_witness :
  Combined.avatarSrc
    (Combined.onloadend 0 (Combined.handleImageChange [mkFile VNull] Combined.initial))
  = VString defaultImage.
Proof.
  destruct avatar_always_has_source as (_ & _ & _ & H).
  apply (H (Combined.handleImageChange [mkFile VNull] Combined.initial) 0 (mkFile VNull));
    reflexivity.
Defined.

(** ** More on cancel *)

(** X16. Cancel does not stop a read that is still pending: when the read
    ends after the cancel, the image draft that cancel had emptied is set to
    the reader's result. *)
Theorem cancel_keeps_pending_reads st i file :
  Combined.readers st !! i = Some file →
  Combined.profileImage (Combined.handleCancel st) = VString []
  ∧ Combined.profileImage (Combined.onloadend i (Combined.handleCancel st))
    = readAsDataURL file.
Proof.
  intros H. split; [reflexivity|].
  unfold Combined.onloadend, Combined.handleCancel. cbn [Combined.readers].
  rewrite H. reflexivity.
Qed.

Lemma cancel_keeps_pending_reads_witness :
  Combined.profileImage
    (Combined.onloadend 0
       (Combined.handleCancel
          (Combined.handleImageChange [mkFile (VString (js "data:image/png;base64,AAAA"))]
             Combined.initial)))
  = VString (js "data:image/png;base64,AAAA").
Proof.
  apply (cancel_keeps_pending_reads
           (Combined.handleImageChange [mkFile (VString (js "data:image/png;base64,AAAA"))]
              Combined.initial) 0 (mkFile (VString (js "data:image/png;base64,AAAA")))).
  reflexivity.
Defined.

(** X17. After cancel, whatever the state was: the avatar shows the default
    placeholder, the nickname field is empty with no icon and no red border,
    no field shows a message, the route is the profile view; and a second
    cancel changes nothing. *)
Theorem after_cancel st :
  let st' := Combined.handleCancel st in
  Combined.avatarSrc st' = VString defaultImage
  ∧ Combined.userNicknameValue st' = VString []
  ∧ Combined.nicknameIcon st' = Combined.no_icon
  ∧ Combined.nicknameInputClass st' = js "pl-10 pr-10 "
  ∧ (∀ k, HookForm.error_of (HookForm.errors (Combined.form st')) k = None)
  ∧ Combined.location st' = js "/my-profile"
  ∧ Combined.handleCancel st' = st'.
Proof.
  cbn zeta. split; [reflexivity|]. split; [reflexivity|]. split; [reflexivity|].
  split; [|split; [|split]].
  - unfold Combined.nicknameInputClass, Combined.handleCancel, HookForm.reset.
    cbn [Combined.form HookForm.errors HookForm.error_of]. apply app_nil_r.
  - intros k. reflexivity.
  - reflexivity.
  - pose proof (clickCancel_handleCancel st) as E. unfold Combined.clickCancel in E.
    unfold Combined.handleCancel at 1. rewrite E.
    unfold Combined.handleCancel, HookForm.reset.
    cbn [Combined.categories Combined.imageFileRef Combined.form Combined.readers].
    destruct (Combined.imageFileRef st); reflexivity.
Qed.

(** X18. A submit right after cancel, or of a form never typed into, is
    rejected: nothing is logged, the nickname shows the "enter a name"
    message, the current and the new password show the length message, and
    the confirmation (empty like the new password) shows none. *)
Theorem empty_form_submit st :
  let r := Combined.submit (Combined.handleCancel st) in
  snd r = []
  ∧ HookForm.errors (Combined.form (fst r))
    = [(js "userNickname", msg_name_required);
       (js "password", msg_password_min);
       (js "newPassword", msg_password_min)]
  ∧ snd (Cards.submitNickname Cards.initial) = []
  ∧ HookForm.errors (Cards.nicknameForm (fst (Cards.submitNickname Cards.initial)))
    = [(js "nickname", msg_name_required)]
  ∧ snd (Cards.submitPassword Cards.initial) = []
  ∧ HookForm.errors (Cards.passwordForm (fst (Cards.submitPassword Cards.initial)))
    = [(js "currentPassword", msg_password_min); (js "newPassword", msg_password_min)].
Proof. vm_compute. repeat split. Qed.

(** ** What holds before every save *)

Lemma strings_only_onChange name s f : strings_only f → strings_only (HookForm.onChange name s f).
Proof.
  intros H k. unfold HookForm.onChange. cbn [HookForm.fieldValues].
  destruct (decide (name = k)) as [->|Hk].
  - right. exists s. apply get_set.
  - rewrite get_set_ne by exact Hk. apply H.
Qed.

Lemma strings_only_empty errs : strings_only (HookForm.mkForm [] errs).
Proof. intros k. left. reflexivity. Qed.

Lemma strings_only_handle st e :
  strings_only (Combined.form st) → strings_only (Combined.form (Combined.handle st e)).
Proof.
  intros H. destruct e as [name s|c|files|i|]; cbn [Combined.handle].
  - apply strings_only_onChange, H.
  - exact H.
  - unfold Combined.handleImageChange. destruct (head files); exact H.
  - unfold Combined.onloadend. destruct (Combined.readers st !! i); exact H.
  - apply strings_only_empty.
Qed.

Lemma strings_only_run events : strings_only (Combined.form (Combined.run events)).
Proof.
  unfold Combined.run.
  assert (strings_only (Combined.form Combined.initial)) as H0 by apply strings_only_empty.
  revert H0. generalize Combined.initial.
  induction events as [|e events IH]; intros st H; [exact H|].
  cbn [foldl]. apply IH, strings_only_handle, H.
Qed.

Lemma watch_text f k : strings_only f → HookForm.watch f k (VString []) = VString (text f k).
Proof.
  intros H. unfold text, HookForm.watch.
  destruct (H k) as [->|[s ->]]; reflexivity.
Qed.

(** X19. Whatever the user does before pressing save (typing into any
    field, clicking labels, picking files, reads ending, cancel, in any
    order), every field of the combined form holds a string or nothing: the
    nickname indicator never fails on a value that is no string, and the
    resolver is handed exactly the four strings of the fields, the empty
    string for a field never typed into. *)
Theorem before_save (events : list Combined.event) :
  let st := Combined.run events in
  strings_only (Combined.form st)
  ∧ Combined.nicknameIcon st ≠ Combined.throws_TypeError
  ∧ HookForm.submitted Combined.fieldNames (Combined.form st)
    = Combined.formValues (text (Combined.form st) (js "userNickname"))
        (text (Combined.form st) (js "password"))
        (text (Combined.form st) (js "newPassword"))
        (text (Combined.form st) (js "confirmPassword")).
Proof.
  cbn zeta. pose proof (strings_only_run events) as H.
  split; [exact H|]. split.
  - unfold Combined.nicknameIcon, Combined.userNicknameValue.
    destruct (HookForm.error_of _ _); [discriminate|].
    rewrite (watch_text _ _ H). destruct (2 <=? _); discriminate.
  - unfold HookForm.submitted, Combined.fieldNames, Combined.formValues. cbn [map].
    rewrite !(watch_text _ _ H). reflexivity.
Qed.

(** ** The cards of the multi-card view are independent *)

(** X20. In the multi-card view the nickname card and the password card do
    not touch each other: a submit of one leaves the form of the other, the
    selection and the image draft as they are, and what a submit of one does
    is not changed by typing into the other. *)
Theorem cards_are_independent st :
  Cards.passwordForm (fst (Cards.submitNickname st)) = Cards.passwordForm st
  ∧ Cards.nicknameForm (fst (Cards.submitPassword st)) = Cards.nicknameForm st
  ∧ Cards.categories (fst (Cards.submitNickname st)) = Cards.categories st
  ∧ Cards.categories (fst (Cards.submitPassword st)) = Cards.categories st
  ∧ Cards.profileImage (fst (Cards.submitNickname st)) = Cards.profileImage st
  ∧ Cards.profileImage (fst (Cards.submitPassword st)) = Cards.profileImage st
  ∧ (∀ s, snd (Cards.submitPassword (Cards.typeNickname s st)) = snd (Cards.submitPassword st)
          ∧ Cards.passwordForm (fst (Cards.submitPassword (Cards.typeNickname s st)))
            = Cards.passwordForm (fst (Cards.submitPassword st)))
  ∧ (∀ name s,
       snd (Cards.submitNickname (Cards.typePassword name s st)) = snd (Cards.submitNickname st)
       ∧ Cards.nicknameForm (fst (Cards.submitNickname (Cards.typePassword name s st)))
         = Cards.nicknameForm (fst (Cards.submitNickname st))).
Proof.
  unfold Cards.submitNickname, Cards.submitPassword, Cards.typeNickname, Cards.typePassword.
  cbn [Cards.nicknameForm Cards.passwordForm].
  destruct (Cards.nicknameResolver _), (Cards.passwordResolver _); repeat split.
Qed.

(** ** Submitting twice *)

Lemma submitted_errors names values errs errs' :
  HookForm.submitted names (HookForm.mkForm values errs)
  = HookForm.submitted names (HookForm.mkForm values errs').
Proof. reflexivity. Qed.

(** X21. A submit changes nothing but the messages: submitting again without
    typing anything gives the same state and the same calls, in the combined
    form and in the two cards. *)
Theorem submit_twice :
  (∀ st, Combined.submit (fst (Combined.submit st)) = Combined.submit st)
  ∧ (∀ st, Cards.submitNickname (fst (Cards.submitNickname st)) = Cards.submitNickname st)
  ∧ (∀ st, Cards.submitPassword (fst (Cards.submitPassword st)) = Cards.submitPassword st).
Proof.
  split; [|split]; intros st.
  - unfold Combined.submit.
    destruct (Combined.resolver (HookForm.submitted _ (Combined.form st))) eqn:E;
      cbn [fst Combined.form HookForm.fieldValues];
      rewrite (submitted_errors _ _ _ (HookForm.errors (Combined.form st)));
      destruct (Combined.form st) as [values errs]; cbn [HookForm.fieldValues HookForm.errors] in *;
      rewrite E; reflexivity.
  - unfold Cards.submitNickname.
    destruct (Cards.nicknameResolver (HookForm.submitted _ (Cards.nicknameForm st))) eqn:E;
      cbn [fst Cards.nicknameForm HookForm.fieldValues];
      rewrite (submitted_errors _ _ _ (HookForm.errors (Cards.nicknameForm st)));
      destruct (Cards.nicknameForm st) as [values errs];
      cbn [HookForm.fieldValues HookForm.errors] in *; rewrite E; reflexivity.
  - unfold Cards.submitPassword.
    destruct (Cards.passwordResolver (HookForm.submitted _ (Cards.passwordForm st))) eqn:E;
      cbn [fst Cards.passwordForm HookForm.fieldValues];
      rewrite (submitted_errors _ _ _ (HookForm.errors (Cards.passwordForm st)));
      destruct (Cards.passwordForm st) as [values errs];
      cbn [HookForm.fieldValues HookForm.errors] in *; rewrite E; reflexivity.
Qed.

(** ** The password recovery card *)

Lemma FindPassword_typed typed st :
  FindPassword.errors (foldl (λ st v, FindPassword.onChange v st) st typed)
  = FindPassword.errors st
  ∧ FindPassword.email (foldl (λ st v, FindPassword.onChange v st) st typed)
    = default (FindPassword.email st) (last typed).
Proof.
  induction typed as [|v typed IH] using rev_ind; [split; reflexivity|].
  rewrite foldl_snoc, last_snoc. destruct IH as [IH _]. split; [exact IH | reflexivity].
Qed.

(** X22. In the password recovery card, whatever is typed and however
    often, the input holds the string typed last (the empty string at first),
    no error text is ever rendered and the input never gets the red border:
    nothing validates the address. *)
Theorem find_password_never_errs (typed : list jsstring) :
  let st := foldl (λ st v, FindPassword.onChange v st) FindPassword.initial typed in
  FindPassword.email st = default [] (last typed)
  ∧ FindPassword.errorText st = None
  ∧ FindPassword.inputClass st = js "pl-10 pr-10 ".
Proof.
  cbn zeta. destruct (FindPassword_typed typed FindPassword.initial) as [He Hm].
  split; [exact Hm|].
  unfold FindPassword.errorText, FindPassword.inputClass. rewrite He.
  split; [reflexivity|]. cbn [FindPassword.errors FindPassword.initial Zod.get truthy].
  apply app_nil_r.
Qed.

(** ** The nickname indicator after a submit *)

Lemma userNicknameValue_submit st :
  Combined.userNicknameValue (fst (Combined.submit st)) = Combined.userNicknameValue st.
Proof. unfold Combined.submit. destruct (Combined.resolver _); reflexivity. Qed.

Lemma userNicknameValue_fields nick pw new conf st :
  Combined.userNicknameValue
    (Combined.typeField (js "confirmPassword") conf
       (Combined.typeField (js "newPassword") new
          (Combined.typeField (js "password") pw (Combined.typeNickname nick st))))
  = VString nick.
Proof.
  unfold Combined.userNicknameValue, Combined.typeNickname, Combined.typeField.
  cbn [Combined.form]. read_field.
Qed.

(** X23. Once the combined form has been submitted, the nickname indicator
    agrees with the schema: the check mark when the nickname passes its rule,
    the red cross when it does not, whatever the password fields hold; the
    icon is never missing. *)
Theorem indicator_after_submit st nick pw new conf :
  let st' := fst (Combined.submit
                    (Combined.typeField (js "confirmPassword") conf
                       (Combined.typeField (js "newPassword") new
                          (Combined.typeField (js "password") pw
                             (Combined.typeNickname nick st))))) in
  (nickname_rule nick → Combined.nicknameIcon st' = Combined.CheckCircle)
  ∧ (¬ nickname_rule nick → Combined.nicknameIcon st' = Combined.XCircle).
Proof.
  cbn zeta. unfold Combined.nicknameIcon.
  rewrite Combined_submit_errors, userNicknameValue_submit, userNicknameValue_fields.
  unfold Combined.typeNickname, Combined.typeField. cbn [Combined.form].
  rewrite Combined_submitted_typed.
  pose proof (Combined_nickname_shown nick pw new conf) as H.
  destruct (HookForm.shown _ _) as [m|]; split; intros Hr.
  - apply H in Hr. discriminate.
  - reflexivity.
  - destruct Hr as (_ & _ & Hlen). apply Nat.leb_le in Hlen. rewrite Hlen. reflexivity.
  - exfalso. apply Hr, H. reflexivity.
Qed.

Lemma indicator_after_submit_witness :
  Combined.nicknameIcon
    (fst (Combined.submit
            (Combined.typeField (js "confirmPassword") []
               (Combined.typeField (js "newPassword") []
                  (Combined.typeField (js "password") []
                     (Combined.typeNickname (js "a!b!") Combined.initial))))))
  = Combined.XCircle.
Proof.
  apply (indicator_after_submit Combined.initial (js "a!b!") [] [] []).
  intros H%nickname_rule_tests. revert H. vm_compute. intros (_ & H & _). discriminate.
Defined.

(** ** Typing into the fields *)

Lemma text_onChange f name s k :
  text (HookForm.onChange name s f) k = if bool_decide (name = k) then s else text f k.
Proof.
  unfold text, HookForm.watch, HookForm.onChange. cbn [HookForm.fieldValues].
  case_bool_decide as E.
  - subst k. rewrite get_set. reflexivity.
  - rewrite get_set_ne by exact E. reflexivity.
Qed.

(** X24. A field hands to the submit the string typed into it last: typing
    into a field replaces what that field hands over and leaves every other
    field as it is, so the order in which different fields are typed into
    does not matter; after [reset] every field hands over the empty string. *)
Theorem typed_fields f name s :
  text (HookForm.onChange name s f) name = s
  ∧ (∀ k, k ≠ name → text (HookForm.onChange name s f) k = text f k)
  ∧ (∀ s', text (HookForm.onChange name s (HookForm.onChange name s' f)) name = s)
  ∧ (∀ name' s' k, name ≠ name' →
       text (HookForm.onChange name s (HookForm.onChange name' s' f)) k
       = text (HookForm.onChange name' s' (HookForm.onChange name s f)) k)
  ∧ (∀ k, text (HookForm.reset f) k = []).
Proof.
  split; [|split; [|split; [|split]]].
  - rewrite text_onChange, bool_decide_eq_true_2 by reflexivity. reflexivity.
  - intros k Hk. rewrite text_onChange, bool_decide_eq_false_2 by congruence. reflexivity.
  - intros s'. rewrite text_onChange, bool_decide_eq_true_2 by reflexivity. reflexivity.
  - intros name' s' k Hne. rewrite !text_onChange.
    repeat case_bool_decide; congruence.
  - intros k. reflexivity.
Qed.

Lemma typed_fields_witness :
  text (HookForm.onChange (js "newPassword") (js "b")
          (HookForm.onChange (js "password") (js "a") HookForm.useForm)) (js "password")
  = js "a".
Proof.
  destruct (typed_fields (HookForm.onChange (js "password") (js "a") HookForm.useForm)
              (js "newPassword") (js "b")) as (_ & H & _).
  rewrite H by (vm_compute; discriminate).
  apply (typed_fields HookForm.useForm (js "password") (js "a")).
Defined.
